(** * eval_brainscan: best-checkpoint extraction and aggregation

    A shallow embedding of [eval.py] (single root) and [eval_mult.py]
    (several roots), and the properties of their selection and
    aggregation logic.

    Conventions of the embedding.
    - Metric values are IEEE binary64 numbers ([spec_float] with
      [prec = 53], [emax = 1024]), as pandas/numpy [float64] cells are;
      NaN and the infinities are values like any other.
    - The file system is a finite map from path strings to nodes; a
      regular file carries what [pandas.read_csv] makes of it (a frame of
      numeric columns or the exception raised), a directory carries its
      listing in the order the operating system returns it.  A path is
      looked up as written; nothing exists at the empty path nor at a
      path that holds a NUL character.  Access rights are not part of the
      map (every directory can be listed), and the cells of a table are
      numbers (a column of text is not part of a frame).
    - [glob.glob] and [fnmatch] are embedded as CPython 3.11 implements
      them for POSIX paths: the directory part of a pattern is a pattern
      as well.
    - Python code runs in a small monad [M] that collects the printed
      lines and may end in a raised exception; [sys.exit] raises
      [SystemExit], which [except Exception] does not catch.
    - Every [print] is one [event]; number formatting is not modelled, the
      event carries the number itself.  The four lines of a folder carry
      the script that prints them: [eval_mult.py] indents them two spaces
      more than [eval.py]. *)

From Stdlib Require Import ZArith NArith List String Ascii Bool Lia.
From Stdlib Require Import Floats.SpecFloat.
From stdpp Require Import base option list strings gmap.

Set Default Proof Using "Type".

(** ** Binary64 numbers *)

Module F64.

Definition prec : Z := 53.
Definition emax : Z := 1024.

Definition float := spec_float.

Definition nan : float := S754_nan.
Definition neg_inf : float := S754_infinity true.
Definition pos_inf : float := S754_infinity false.
Definition zero : float := S754_zero false.

Definition add (x y : float) : float := SFadd prec emax x y.
Definition div (x y : float) : float := SFdiv prec emax x y.

(** [x < y], [x <= y] and [x > y] of IEEE 754: false as soon as one side
    is NaN. *)
Definition ltb (x y : float) : bool := SFltb x y.
Definition leb (x y : float) : bool := SFleb x y.
Definition gtb (x y : float) : bool := SFltb y x.

Definition is_nan (x : float) : bool :=
  match x with S754_nan => true | _ => false end.

(** Conversion of an integer (exact below 2^53, rounded above). *)
Definition of_Z (z : Z) : float := binary_normalize prec emax z 0 false.
Definition of_nat (n : nat) : float := of_Z (Z.of_nat n).

(** The neighbours of a number among the binary64 numbers. *)
Definition succ (x : float) : float := SFsucc prec emax x.
Definition pred (x : float) : float := SFpred prec emax x.

(** The binary64 number a decimal literal [n/d] denotes, for [n] and [d]
    exactly representable: the correctly rounded quotient. *)
Definition dec (n d : Z) : float := div (of_Z n) (of_Z d).

(** *** The order on non-NaN numbers

    [rank] sends a number to a triple of integers ordered
    lexicographically; [SFcompare] is the comparison of ranks. *)

Definition rank (x : float) : Z * Z * Z :=
  match x with
  | S754_nan => (0, 0, 0)
  | S754_zero _ => (0, 0, 0)
  | S754_infinity false => (2, 0, 0)
  | S754_infinity true => (-2, 0, 0)
  | S754_finite false m e => (1, e, Zpos m)
  | S754_finite true m e => (-1, - e, Zneg m)
  end%Z.

Definition lex3 (p q : Z * Z * Z) : comparison :=
  let '(a1, b1, c1) := p in
  let '(a2, b2, c2) := q in
  match (a1 ?= a2)%Z with
  | Eq => match (b1 ?= b2)%Z with
          | Eq => (c1 ?= c2)%Z
          | c => c
          end
  | c => c
  end.

End F64.

Abbreviation float := F64.float.

(** ** Strings and paths *)

Module Path.

Definition sep : ascii := "/"%char.

(** [str.lower] on the ASCII letters.  A file name is a UTF-8 byte
    string: the bytes of a non-ASCII character are all above 127 and
    never turn into one of the letters of the marker. *)
Definition lower_char (c : ascii) : ascii :=
  let n := nat_of_ascii c in
  if (65 <=? n) && (n <=? 90) then ascii_of_nat (n + 32) else c.

Fixpoint lower (s : string) : string :=
  match s with
  | EmptyString => EmptyString
  | String c s' => String (lower_char c) (lower s')
  end.

(** [needle in hay] *)
Fixpoint contains (needle hay : string) : bool :=
  String.prefix needle hay ||
  match hay with
  | EmptyString => false
  | String _ hay' => contains needle hay'
  end.

Fixpoint endswith (suffix s : string) : bool :=
  String.eqb suffix s ||
  match s with
  | EmptyString => false
  | String _ s' => endswith suffix s'
  end.

Definition startswith (p s : string) : bool := String.prefix p s.

Fixpoint has_sep (p : string) : bool :=
  match p with
  | EmptyString => false
  | String c p' => Ascii.eqb c sep || has_sep p'
  end.

(** [os.path.basename]: what follows the last separator. *)
Fixpoint basename (p : string) : string :=
  match p with
  | EmptyString => EmptyString
  | String c p' =>
      if has_sep p' then basename p'
      else if Ascii.eqb c sep then p' else p
  end.

(** [os.path.join] of two components. *)
Definition join (a b : string) : string :=
  if startswith "/" b then b
  else if String.eqb a "" || endswith "/" a then a +:+ b
  else a +:+ "/" +:+ b.

(** A name matched by the pattern [*.csv] in [glob]: it ends in [.csv]
    and, the pattern not starting with a dot, is not a hidden name. *)
Definition matches_csv (name : string) : bool :=
  negb (startswith "." name) && endswith ".csv" name.

(** Some character of [s] satisfies [f]. *)
Fixpoint any (f : ascii → bool) (s : string) : bool :=
  match s with
  | EmptyString => false
  | String c s' => f c || any f s'
  end.

Definition has_nul (p : string) : bool := any (Ascii.eqb "000"%char) p.

(** [p[:p.rfind('/') + 1]]: the path up to its last separator, which it
    includes. *)
Fixpoint head (p : string) : string :=
  match p with
  | EmptyString => EmptyString
  | String c p' =>
      if has_sep p' then String c (head p')
      else if Ascii.eqb c sep then String c EmptyString else EmptyString
  end.

(** [p.rstrip('/')] *)
Fixpoint rstrip (p : string) : string :=
  match p with
  | EmptyString => EmptyString
  | String c p' =>
      match rstrip p' with
      | EmptyString => if Ascii.eqb c sep then EmptyString else String c EmptyString
      | r => String c r
      end
  end.

(** [os.path.split]: the head loses its trailing separators unless it is
    made of separators only. *)
Definition split (p : string) : string * string :=
  let h := head p in
  (match rstrip h with EmptyString => h | r => r end, basename p).

End Path.

(** ** Exceptions, printed lines and the monad of Python code *)

(** The subclasses of [Exception] that can arise. *)
Inductive exception :=
| FileNotFoundError
| IsADirectoryError
| NotADirectoryError
| PermissionError
| EmptyDataError
| ParserError
| UnicodeDecodeError
| ValueError
| KeyError
| IndexError
| ZeroDivisionError
| TypeError.

(** What a Python computation can end in instead of a value. [SystemExit]
    derives from [BaseException] only. *)
Inductive raised :=
| Exc (e : exception)
| SystemExit (code : Z).

(** The script that runs: [eval.py] or [eval_mult.py]. *)
Inductive script := Single | Multi.

(** One constructor per [print] statement of the two scripts.  The
    statements that the two scripts share print the same text, but for the
    four lines of a folder, which [eval_mult.py] prints two spaces
    deeper: these carry the script. *)
Inductive event :=
  (* process_csv_file *)
| PWarnColumns (csv_path : string)
| PErrProcessing (csv_path : string) (e : exception)
  (* analyze_directory *)
| PErrNoDirectory (root_directory : string)
| PWarnNoCsv (folder_path : string)
| PFolder (sc : script) (folder_name : string)
| PFile (sc : script) (file : string)
| PBestVal (sc : script) (val_auroc : float)
| PCorrTest (sc : script) (test_auroc : float)
| PBlank
| PRule (width : nat)
| POverallTitle
| POverallBestVal (v : float)
| POverallCorrTest (t : float)
| PFoundInFolder (best_folder : option string)
| PFromFile (best_file : option string)
| PNoValidResults
| PUsage
  (* analyze_multiple_directories *)
| PAnalyzing
| PAnalyzingDir (i n : nat) (directory : string)
| PDashes (width : nat)
| PDirBestVal (best_val : float)
| PDirCorrTest (best_test : float)
| PDirNoValid (directory : string)
| POverallAllTitle
| PNumProcessed (n : nat)
| PNumValid (n : nat)
| PAvgVal (avg_val_auroc : float)
| PAvgTest (avg_test_auroc : float)
| PDetailed
| PValMinMax (lo hi : float)
| PTestMinMax (lo hi : float)
| PIndividual
| PIndividualLine (directory : string) (v t : float)
| PNoValidAny
  (* eval_mult.main *)
| PUsageExample
| PWarnSkip (dir_path : string)
| PErrNoValidDirs
| PFinalTitle
| PFinalVal (avg_val : float)
| PFinalTest (avg_test : float).

(** A computation: the lines printed so far, and a value or what was
    raised. *)
Definition M (A : Type) : Type := (list event * (raised + A))%type.

Global Instance M_ret : MRet M := λ A x, ([], inr x).

Global Instance M_bind : MBind M := λ A B f m,
  match m with
  | (out, inl r) => (out, inl r)
  | (out, inr a) => let '(out', r) := f a in (out ++ out', r)
  end.

Definition print (ev : event) : M unit := ([ev], inr tt).

Definition raise {A} (r : raised) : M A := ([], inl r).

(** [try: body  except Exception as e: handler e] *)
Definition try_except {A} (body : M A) (handler : exception → M A) : M A :=
  match body with
  | (out, inl (Exc e)) => let '(out', r) := handler e in (out ++ out', r)
  | _ => body
  end.

(** [for x in xs: s = body x s], the loop variables threaded as [s];
    [continue] is a body that returns [s] as it is. *)
Fixpoint for_each {A S} (xs : list A) (body : A → S → M S) (s : S) : M S :=
  match xs with
  | [] => mret s
  | x :: xs' => s' ← body x s; for_each xs' body s'
  end.

Definition output {A} (m : M A) : list event := m.1.
Definition outcome {A} (m : M A) : raised + A := m.2.

(** ** Shell patterns: [fnmatch] *)

Module Fnmatch.

(** What [fnmatch.translate] makes of a pattern, item by item.  A
    character of a pattern or of a name is one [ascii]. *)
Inductive item :=
| Star                                            (* any run of characters *)
| Dot                                             (* any one character *)
| Lit (c : ascii)                                 (* the character itself *)
| Chars (negated : bool) (chunks : list (list ascii))  (* a bracket expression *)
| Never.                                          (* a bracket expression left empty *)

Definition code (c : ascii) : N := N_of_ascii c.

Definition elem (c : ascii) (l : list ascii) : bool := existsb (Ascii.eqb c) l.

(** [s.find(c)] *)
Fixpoint find (c : ascii) (s : list ascii) : option nat :=
  match s with
  | [] => None
  | x :: s' => if Ascii.eqb x c then Some 0 else S <$> find c s'
  end.

(** The index, in the text [s] that follows an opening bracket, of the
    bracket that closes the expression: an exclamation mark and then a
    closing bracket at the start do not close it. *)
Definition class_end (s : list ascii) : option nat :=
  let j := match s with "!"%char :: _ => 1 | _ => 0 end in
  let j := match drop j s with "]"%char :: _ => S j | _ => j end in
  (λ k, j + k) <$> find "]"%char (drop j s).

Definition cons_head (c : ascii) (chunks : list (list ascii)) : list (list ascii) :=
  match chunks with
  | [] => [[c]]
  | ch :: chunks' => (c :: ch) :: chunks'
  end.

(** The text of a bracket expression cut at the hyphens that stand for a
    range: a hyphen among the first [skip] characters does not, and after
    a cut the next two characters are skipped. *)
Fixpoint split_ranges (skip : nat) (s : list ascii) : list (list ascii) :=
  match s with
  | [] => [[]]
  | c :: s' =>
      match skip with
      | 0 => if Ascii.eqb c "-" then [] :: split_ranges 2 s'
             else cons_head c (split_ranges 0 s')
      | S k => cons_head c (split_ranges k s')
      end
  end.

(** A cut at the very end leaves an empty last chunk: the hyphen goes
    back to the chunk before it. *)
Fixpoint close_ranges (chunks : list (list ascii)) : list (list ascii) :=
  match chunks with
  | [ch; []] => [ch ++ ["-"%char]]
  | ch :: chunks' => ch :: close_ranges chunks'
  | [] => []
  end.

(** Ranges whose start is above their end are removed, from the right:
    the two chunks merge, without the two bounds. *)
Fixpoint remove_empty_ranges (chunks : list (list ascii)) : list (list ascii) :=
  match chunks with
  | [] => []
  | ch :: chunks' =>
      match remove_empty_ranges chunks' with
      | [] => [ch]
      | next :: rest =>
          match last ch, next with
          | Some lo, hi :: next' =>
              if (code hi <? code lo)%N then (removelast ch ++ next') :: rest
              else ch :: next :: rest
          | _, _ => ch :: next :: rest
          end
      end
  end.

Definition chunks_of (stuff : list ascii) : list (list ascii) :=
  if negb (elem "-" stuff) then [stuff]
  else
    let skip := match stuff with "!"%char :: _ => 2 | _ => 1 end in
    remove_empty_ranges (close_ranges (split_ranges skip stuff)).

(** The item of the bracket expression whose text is [stuff]. *)
Definition bracket (stuff : list ascii) : item :=
  match chunks_of stuff with
  | [[]] => Never
  | ["!"%char :: []] => Dot
  | ("!"%char :: ch) :: chunks => Chars true (ch :: chunks)
  | chunks => Chars false chunks
  end.

(** [translate]: [skip] counts the characters of a bracket expression
    still to be passed over. *)
Fixpoint translate (skip : nat) (pat : list ascii) : list item :=
  match pat with
  | [] => []
  | c :: rest =>
      match skip with
      | S k => translate k rest
      | 0 =>
          if Ascii.eqb c "*" then Star :: translate 0 rest
          else if Ascii.eqb c "?" then Dot :: translate 0 rest
          else if Ascii.eqb c "[" then
            match class_end rest with
            | None => Lit "[" :: translate 0 rest
            | Some j => bracket (take j rest) :: translate (S j) rest
            end
          else Lit c :: translate 0 rest
      end
  end.

(** The character [c] belongs to the chunks: the last character of a
    chunk and the first of the next bound a range; [lo] is the start of a
    range that the first chunk ends. *)
Fixpoint in_chunks (c : ascii) (lo : option ascii) (chunks : list (list ascii)) : bool :=
  match chunks with
  | [] => false
  | ch :: rest =>
      let '(hit, ch') :=
        match lo, ch with
        | Some l, h :: t => ((code l <=? code c)%N && (code c <=? code h)%N, t)
        | _, _ => (false, ch)
        end in
      hit ||
      match rest with
      | [] => elem c ch'
      | _ => elem c (removelast ch') || in_chunks c (last ch') rest
      end
  end.

Definition item_match (it : item) (c : ascii) : bool :=
  match it with
  | Star | Dot => true
  | Lit x => Ascii.eqb x c
  | Chars negated chunks => xorb negated (in_chunks c None chunks)
  | Never => false
  end.

(** The compiled pattern matches the whole of [s]. *)
Fixpoint re_match (items : list item) (s : list ascii) : bool :=
  match items with
  | [] => match s with [] => true | _ => false end
  | Star :: items' =>
      (fix star (s : list ascii) : bool :=
         re_match items' s ||
         match s with
         | [] => false
         | _ :: s' => star s'
         end) s
  | it :: items' =>
      match s with
      | [] => false
      | c :: s' => item_match it c && re_match items' s'
      end
  end.

Definition fnmatch (name pat : string) : bool :=
  re_match (translate 0 (list_ascii_of_string pat)) (list_ascii_of_string name).

(** [fnmatch.filter] *)
Definition filter (names : list string) (pat : string) : list string :=
  List.filter (λ name, fnmatch name pat) names.

End Fnmatch.


(** ** The file system and the tables *)

(** A parsed table: its column labels, its number of rows (labelled
    0, 1, ... by the default index) and its cells, all numeric ([float64]
    columns, a missing cell being NaN). *)
Record DataFrame := {
  df_columns : list string;
  df_nrows : nat;
  df_at : nat → string → float
}.

Inductive node :=
| File (parsed : exception + DataFrame)
| Dir (entries : list string).

(** A path at which something can exist: it is not empty and holds no
    NUL character. *)
Definition valid_path (p : string) : bool :=
  negb (String.eqb p "") && negb (Path.has_nul p).

(** The nodes by path.  A path is looked up as written, and nothing is
    found at a path that is not valid. *)
Record FS := { nodes : gmap string node }.

Global Instance FS_lookup : Lookup string node FS := λ p fs,
  if valid_path p then nodes fs !! p else None.

Global Instance FS_empty : Empty FS := {| nodes := ∅ |}.

(** [os.path.exists], and [os.path.lexists] in the absence of links *)
Definition exists_ (fs : FS) (p : string) : bool :=
  match fs !! p with Some _ => true | None => false end.

Definition isdir (fs : FS) (p : string) : bool :=
  match fs !! p with Some (Dir _) => true | _ => false end.

(** [os.listdir], and [os.scandir] as to the names it yields.  A NUL
    character in the path is refused with [ValueError] before the file
    system is asked. *)
Definition listdir (fs : FS) (p : string) : M (list string) :=
  if Path.has_nul p then raise (Exc ValueError)
  else
    match fs !! p with
    | Some (Dir entries) => mret entries
    | Some (File _) => raise (Exc NotADirectoryError)
    | None => raise (Exc FileNotFoundError)
    end.

(** The subclasses of [OSError]. *)
Definition is_oserror (e : exception) : bool :=
  match e with
  | FileNotFoundError | IsADirectoryError | NotADirectoryError | PermissionError => true
  | _ => false
  end.

(** ** [glob.glob] *)

Module Glob.

Definition magic (c : ascii) : bool :=
  Ascii.eqb c "*" || Ascii.eqb c "?" || Ascii.eqb c "[".

Definition has_magic (s : string) : bool := Path.any magic s.

(** [_ishidden]; the names of a directory and the patterns it is asked
    for are not empty. *)
Definition ishidden (path : string) : bool := Path.startswith "." path.

(** [_join] *)
Definition join (dirname basename : string) : string :=
  if String.eqb dirname "" then basename
  else if String.eqb basename "" then dirname
  else Path.join dirname basename.

(** [_listdir]: the names in a directory, the current one for the empty
    name, those of directories only when [dironly]; an [OSError] gives no
    name, any other exception goes through.  Whether an entry is a
    directory is looked up at the path [glob] goes on with. *)
Definition iterdir (fs : FS) (dirname : string) (dironly : bool) : M (list string) :=
  let arg := if String.eqb dirname "" then "." else dirname in
  match listdir fs arg with
  | (_, inl (Exc e)) as failed => if is_oserror e then mret [] else failed
  | (_, inl _) as failed => failed
  | (_, inr names) =>
      mret (List.filter (λ name, negb dironly || isdir fs (join dirname name)) names)
  end.

Definition glob1 (fs : FS) (dirname pattern : string) (dironly : bool) : M (list string) :=
  names ← iterdir fs dirname dironly;
  let names :=
    if negb (ishidden pattern) then List.filter (λ x, negb (ishidden x)) names
    else names in
  mret (Fnmatch.filter names pattern).

Definition glob0 (fs : FS) (dirname basename : string) (dironly : bool) : M (list string) :=
  if negb (String.eqb basename "") then
    if exists_ fs (join dirname basename) then mret [basename] else mret []
  else
    if isdir fs dirname then mret [basename] else mret [].

(** [for x in xs: for y in f(x): yield y] *)
Fixpoint chain {A B} (f : A → M (list B)) (xs : list A) : M (list B) :=
  match xs with
  | [] => mret []
  | x :: xs' => ys ← f x; zs ← chain f xs'; mret (ys ++ zs)
  end.

(** [_iglob], run to its end, for [recursive=False] and no [root_dir].
    The inner call is on the directory part, which holds a pattern
    character and is shorter than the pattern: [fuel] bounds the calls and
    is never used up (lemma [iglob_fuel]). *)
Fixpoint iglob (fs : FS) (fuel : nat) (pathname : string) (dironly : bool)
  : M (list string) :=
  match fuel with
  | 0 => mret []
  | S fuel' =>
      let '(dirname, basename) := Path.split pathname in
      if negb (has_magic pathname) then
        if negb (String.eqb basename "") then
          if exists_ fs pathname then mret [pathname] else mret []
        else
          if isdir fs dirname then mret [pathname] else mret []
      else if String.eqb dirname "" then
        glob1 fs "" basename dironly
      else
        dirs ← (if negb (String.eqb dirname pathname) && has_magic dirname
                then iglob fs fuel' dirname true
                else mret [dirname]);
        let glob_in_dir := if has_magic basename then glob1 else glob0 in
        chain (λ dirname,
                 names ← glob_in_dir fs dirname basename dironly;
                 mret (map (Path.join dirname) names)) dirs
  end.

(** [glob.glob(pathname)] *)
Definition glob (fs : FS) (pathname : string) : M (list string) :=
  iglob fs (S (String.length pathname)) pathname false.

End Glob.

(** [pd.read_csv] *)
Definition read_csv (fs : FS) (p : string) : M DataFrame :=
  if Path.has_nul p then raise (Exc ValueError)
  else
    match fs !! p with
    | Some (File (inr df)) => mret df
    | Some (File (inl e)) => raise (Exc e)
    | Some (Dir _) => raise (Exc IsADirectoryError)
    | None => raise (Exc FileNotFoundError)
    end.

Definition has_column (df : DataFrame) (c : string) : bool :=
  existsb (String.eqb c) (df_columns df).

(** [df[c]], as the list of its values in row order *)
Definition column (df : DataFrame) (c : string) : list float :=
  map (λ i, df_at df i c) (seq 0 (df_nrows df)).

(** [df.loc[i, c]] *)
Definition loc (df : DataFrame) (i : nat) (c : string) : M float :=
  if (i <? df_nrows df) && has_column df c then mret (df_at df i c)
  else raise (Exc KeyError).

(** [numpy.argmax]: the first position of the largest value. *)
Fixpoint argmax_from (best_i : nat) (best : float) (i : nat) (xs : list float) : nat :=
  match xs with
  | [] => best_i
  | x :: xs' =>
      if F64.gtb x best then argmax_from i x (S i) xs'
      else argmax_from best_i best (S i) xs'
  end.

Definition fill_nan (x : float) : float :=
  if F64.is_nan x then F64.neg_inf else x.

(** [Series.idxmax()] with its default [skipna=True]: NaN cells are
    replaced by minus infinity and the first position of the largest
    value is taken.  An empty column raises [ValueError]; so does a column
    of NaN only (older versions of the library return a NaN label there,
    which the following [df.loc] rejects with [KeyError]). *)
Definition idxmax (s : list float) : M nat :=
  match map fill_nan s with
  | [] => raise (Exc ValueError)
  | x :: xs =>
      if forallb F64.is_nan s then raise (Exc ValueError)
      else mret (argmax_from 0 x 1 xs)
  end.

(** ** The functions shared by the two scripts *)

Fixpoint first_without_info (csv_files : list string) : option string :=
  match csv_files with
  | [] => None
  | csv_file :: rest =>
      let filename := Path.basename csv_file in
      if negb (Path.contains "info" (Path.lower filename)) then Some csv_file
      else first_without_info rest
  end.

Definition find_csv_without_info (fs : FS) (directory : string) : M (option string) :=
  csv_files ← Glob.glob fs (Path.join directory "*.csv");
  mret (first_without_info csv_files).

Definition process_csv_file (fs : FS) (csv_path : string)
  : M (option float * option float) :=
  try_except
    (df ← read_csv fs csv_path;
     if negb (has_column df "val_auroc") || negb (has_column df "test_auroc") then
       _ ← print (PWarnColumns csv_path);
       mret (None, None)
     else
       max_val_auroc_idx ← idxmax (column df "val_auroc");
       best_val_auroc ← loc df max_val_auroc_idx "val_auroc";
       corresponding_test_auroc ← loc df max_val_auroc_idx "test_auroc";
       mret (Some best_val_auroc, Some corresponding_test_auroc))
    (λ e,
       _ ← print (PErrProcessing csv_path e);
       mret (None, None)).

(** A two-column table given by its rows of [(val_auroc, test_auroc)]. *)
Definition table_of_rows (rows : list (float * float)) : DataFrame :=
  {| df_columns := ["epoch"; "val_auroc"; "test_auroc"];
     df_nrows := length rows;
     df_at := λ i c,
       match rows !! i with
       | Some (v, t) =>
           if String.eqb c "val_auroc" then v
           else if String.eqb c "test_auroc" then t
           else F64.of_nat i
       | None => F64.nan
       end |}.

(** ** The scan of one root directory, common to both scripts *)

(** The dictionary appended to [results] for a folder. *)
Record FolderResult := {
  folder : string;
  file : string;
  val_auroc : float;
  test_auroc : float
}.

(** The local variables of [analyze_directory] that the loop updates. *)
Record scan_state := {
  overall_best_val_auroc : float;
  overall_best_test_auroc : option float;
  best_folder : option string;
  best_file : option string;
  results : list FolderResult
}.

Definition scan_init : scan_state :=
  {| overall_best_val_auroc := F64.neg_inf;
     overall_best_test_auroc := None;
     best_folder := None;
     best_file := None;
     results := [] |}.

(** The four lines of a folder, each script printing its own, and the
    empty line that [eval.py] adds. *)
Definition print_folder (sc : script) (r : FolderResult) : M unit :=
  _ ← print (PFolder sc (folder r));
  _ ← print (PFile sc (file r));
  _ ← print (PBestVal sc (val_auroc r));
  _ ← print (PCorrTest sc (test_auroc r));
  match sc with
  | Single => print PBlank
  | Multi => mret tt
  end.

(** The body of [for folder_name in os.listdir(root_directory)]. *)
Definition scan_folder (sc : script) (fs : FS) (root_directory folder_name : string)
    (s : scan_state) : M scan_state :=
  let folder_path := Path.join root_directory folder_name in
  if negb (isdir fs folder_path) then mret s
  else
    csv_file ← find_csv_without_info fs folder_path;
    match csv_file with
    | None =>
        _ ← print (PWarnNoCsv folder_path);
        mret s
    | Some csv_file =>
        vt ← process_csv_file fs csv_file;
        match vt with
        | (Some v, Some t) =>
            let r := {| folder := folder_name;
                        file := Path.basename csv_file;
                        val_auroc := v;
                        test_auroc := t |} in
            _ ← print_folder sc r;
            if F64.gtb v (overall_best_val_auroc s) then
              mret {| overall_best_val_auroc := v;
                      overall_best_test_auroc := Some t;
                      best_folder := Some folder_name;
                      best_file := Some (Path.basename csv_file);
                      results := results s ++ [r] |}
            else
              mret {| overall_best_val_auroc := overall_best_val_auroc s;
                      overall_best_test_auroc := overall_best_test_auroc s;
                      best_folder := best_folder s;
                      best_file := best_file s;
                      results := results s ++ [r] |}
        | _ => mret s
        end
    end.

Definition scan (sc : script) (fs : FS) (root_directory : string)
    (names : list string) (s : scan_state) : M scan_state :=
  for_each names (scan_folder sc fs root_directory) s.

(** ** [eval.py] *)

Module Eval.

Definition print_overall (s : scan_state) : M unit :=
  _ ← print (PRule 50);
  _ ← print POverallTitle;
  _ ← print (PRule 50);
  match overall_best_test_auroc s with
  | Some t =>
      _ ← print (POverallBestVal (overall_best_val_auroc s));
      _ ← print (POverallCorrTest t);
      _ ← print (PFoundInFolder (best_folder s));
      print (PFromFile (best_file s))
  | None => print PNoValidResults
  end.

(** Returns [None] for a missing root, the list [results] otherwise. *)
Definition analyze_directory (fs : FS) (root_directory : string)
  : M (option (list FolderResult)) :=
  if negb (exists_ fs root_directory) then
    _ ← print (PErrNoDirectory root_directory);
    mret None
  else
    names ← listdir fs root_directory;
    s ← scan Single fs root_directory names scan_init;
    _ ← print_overall s;
    mret (Some (results s)).

Definition main (fs : FS) (argv : list string) : M unit :=
  match argv with
  | [_; directory_path] =>
      _ ← analyze_directory fs directory_path;
      mret tt
  | _ =>
      _ ← print PUsage;
      raise (SystemExit 1)
  end.

End Eval.

(** ** [eval_mult.py] *)

Module EvalMult.

Definition analyze_directory (fs : FS) (root_directory : string)
  : M (option float * option float * list FolderResult) :=
  if negb (exists_ fs root_directory) then
    _ ← print (PErrNoDirectory root_directory);
    mret (None, None, [])
  else
    names ← listdir fs root_directory;
    s ← scan Multi fs root_directory names scan_init;
    match overall_best_test_auroc s with
    | Some t => mret (Some (overall_best_val_auroc s), Some t, results s)
    | None => mret (None, None, results s)
    end.

(** [sum(l)]: the additions start from the integer 0 and go left to
    right; the cells being numpy scalars, each is a binary64 addition. *)
Definition py_sum (l : list float) : float := fold_left F64.add l F64.zero.

(** [sum(l) / len(l)] *)
Definition mean (l : list float) : M float :=
  match l with
  | [] => raise (Exc ZeroDivisionError)
  | _ => mret (F64.div (py_sum l) (F64.of_nat (length l)))
  end.

(** [max(l)] and [min(l)]: the first element, replaced by each later
    one that compares greater (smaller). *)
Definition max_from (x : float) (l : list float) : float :=
  fold_left (λ cur y, if F64.gtb y cur then y else cur) l x.

Definition min_from (x : float) (l : list float) : float :=
  fold_left (λ cur y, if F64.ltb y cur then y else cur) l x.

Definition py_max (l : list float) : M float :=
  match l with
  | [] => raise (Exc ValueError)
  | x :: l' => mret (max_from x l')
  end.

Definition py_min (l : list float) : M float :=
  match l with
  | [] => raise (Exc ValueError)
  | x :: l' => mret (min_from x l')
  end.

(** [l[i]] *)
Definition index (l : list float) (i : nat) : M float :=
  match l !! i with
  | Some x => mret x
  | None => raise (Exc IndexError)
  end.

(** The accumulators of [analyze_multiple_directories]. *)
Record multi_state := {
  all_best_val_aurocs : list float;
  all_best_test_aurocs : list float;
  all_results : list FolderResult
}.

Definition multi_init : multi_state :=
  {| all_best_val_aurocs := []; all_best_test_aurocs := []; all_results := [] |}.

(** The body of [for i, directory in enumerate(directory_list, 1)]. *)
Definition analyze_one (fs : FS) (n : nat) (id : nat * string) (s : multi_state)
  : M multi_state :=
  let '(i, directory) := id in
  _ ← print (PAnalyzingDir i n directory);
  _ ← print (PDashes 40);
  res ← analyze_directory fs directory;
  match res with
  | (Some best_val, Some best_test, results) =>
      _ ← print (PDirBestVal best_val);
      _ ← print (PDirCorrTest best_test);
      mret {| all_best_val_aurocs := all_best_val_aurocs s ++ [best_val];
              all_best_test_aurocs := all_best_test_aurocs s ++ [best_test];
              all_results := all_results s ++ results |}
  | _ =>
      _ ← print (PDirNoValid directory);
      mret s
  end.

Definition enumerate {A} (start : nat) (l : list A) : list (nat * A) :=
  zip (seq start (length l)) l.

(** The body of the loop printing the individual results. *)
Definition print_individual (s : multi_state) (id : nat * string) (u : unit) : M unit :=
  let '(i, directory) := id in
  if i <? length (all_best_val_aurocs s) then
    v ← index (all_best_val_aurocs s) i;
    t ← index (all_best_test_aurocs s) i;
    print (PIndividualLine directory v t)
  else mret tt.

Definition analyze_multiple_directories (fs : FS) (directory_list : list string)
  : M (option float * option float * list FolderResult) :=
  _ ← print PAnalyzing;
  _ ← print (PRule 60);
  s ← for_each (enumerate 1 directory_list)
        (analyze_one fs (length directory_list)) multi_init;
  _ ← print (PRule 60);
  _ ← print POverallAllTitle;
  _ ← print (PRule 60);
  match all_best_val_aurocs s with
  | _ :: _ =>
      avg_val_auroc ← mean (all_best_val_aurocs s);
      avg_test_auroc ← mean (all_best_test_aurocs s);
      _ ← print (PNumProcessed (length directory_list));
      _ ← print (PNumValid (length (all_best_val_aurocs s)));
      _ ← print (PAvgVal avg_val_auroc);
      _ ← print (PAvgTest avg_test_auroc);
      _ ← print PDetailed;
      vlo ← py_min (all_best_val_aurocs s);
      vhi ← py_max (all_best_val_aurocs s);
      _ ← print (PValMinMax vlo vhi);
      tlo ← py_min (all_best_test_aurocs s);
      thi ← py_max (all_best_test_aurocs s);
      _ ← print (PTestMinMax tlo thi);
      _ ← print PIndividual;
      _ ← for_each (enumerate 0 directory_list) (print_individual s) tt;
      mret (Some avg_val_auroc, Some avg_test_auroc, all_results s)
  | [] =>
      _ ← print PNoValidAny;
      mret (None, None, [])
  end.

(** The body of [for dir_path in directory_paths] in [main]. *)
Definition keep_existing (fs : FS) (dir_path : string) (valid_directories : list string)
  : M (list string) :=
  if exists_ fs dir_path then mret (valid_directories ++ [dir_path])
  else
    _ ← print (PWarnSkip dir_path);
    mret valid_directories.

(** What [main] does once [valid_directories] is built. *)
Definition run_valid (fs : FS) (valid_directories : list string) : M unit :=
  match valid_directories with
  | [] =>
      _ ← print PErrNoValidDirs;
      raise (SystemExit 1)
  | _ =>
      res ← analyze_multiple_directories fs valid_directories;
      match res with
      | (Some avg_val, avg_test, _) =>
          _ ← print PFinalTitle;
          _ ← print (PFinalVal avg_val);
          match avg_test with
          | Some t => print (PFinalTest t)
          | None => raise (Exc TypeError)
          end
      | _ => mret tt
      end
  end.

Definition main (fs : FS) (argv : list string) : M unit :=
  if length argv <? 2 then
    _ ← print PUsage;
    _ ← print PUsageExample;
    raise (SystemExit 1)
  else
    let directory_paths := tail argv in
    valid_directories ← for_each directory_paths (keep_existing fs) [];
    run_valid fs valid_directories.

End EvalMult.

(** * Definitions used in the statements *)

(** The marker test of the loop of [find_csv_without_info]. *)
Definition is_info (csv_file : string) : bool :=
  Path.contains "info" (Path.lower (Path.basename csv_file)).

(** The listing of a directory; empty for what is not a directory. *)
Definition listing (fs : FS) (directory : string) : list string :=
  match fs !! directory with
  | Some (Dir entries) => entries
  | _ => []
  end.

(** The candidates of the selector: what [glob] returns for the pattern
    of the directory (nothing when it raises). *)
Definition glob_csv (fs : FS) (directory : string) : list string :=
  match outcome (Glob.glob fs (Path.join directory "*.csv")) with
  | inr csv_files => csv_files
  | inl _ => []
  end.

(** The directory part that [glob] reads off the pattern of a directory,
    and the directory it lists for it: the current one when that part is
    empty. *)
Definition glob_dirname (directory : string) : string :=
  (Path.split (Path.join directory "*.csv")).1.

Definition glob_listed (directory : string) : string :=
  if String.eqb (glob_dirname directory) "" then "." else glob_dirname directory.

(** An entry the selector may return: its name matches the extension and
    the lower-cased base name of its path is free of the marker. *)
Definition selectable (directory name : string) : bool :=
  Path.matches_csv name && negb (is_info (Path.join directory name)).

(** The row [i] holds the first largest [val_auroc] of the table. *)
Definition first_max_row (df : DataFrame) (i : nat) : Prop :=
  i < df_nrows df ∧
  (∀ j, j < df_nrows df →
        F64.leb (df_at df j "val_auroc") (df_at df i "val_auroc") = true) ∧
  (∀ j, j < i →
        F64.ltb (df_at df j "val_auroc") (df_at df i "val_auroc") = true).

(** The table of the specification's tie-break example, and a table with
    a header and no row. *)
Definition tie_table : DataFrame :=
  table_of_rows [(F64.dec 7 10, F64.dec 6 10);
                 (F64.dec 9 10, F64.dec 5 10);
                 (F64.dec 9 10, F64.dec 8 10)].

Definition header_only : DataFrame := table_of_rows [].

Definition one_file (p : string) (df : DataFrame) : FS :=
  {| nodes := {[ p := File (inr df) ]} |}.

(** What a folder contributes to [results]: its selected file's pair, when
    the folder is a directory, a file is selected and the pair is there. *)
Definition folder_result (fs : FS) (root_directory folder_name : string)
  : option FolderResult :=
  let folder_path := Path.join root_directory folder_name in
  if isdir fs folder_path then
    match first_without_info (glob_csv fs folder_path) with
    | Some csv_file =>
        match outcome (process_csv_file fs csv_file) with
        | inr (Some v, Some t) =>
            Some {| folder := folder_name; file := Path.basename csv_file;
                    val_auroc := v; test_auroc := t |}
        | _ => None
        end
    | None => None
    end
  else None.

(** The valid folder results of a root, in iteration order. *)
Definition valid_results (fs : FS) (root_directory : string) : list FolderResult :=
  omap (folder_result fs root_directory) (listing fs root_directory).

(** The effect of one valid folder result on the loop variables. *)
Definition track (s : scan_state) (r : FolderResult) : scan_state :=
  if F64.gtb (val_auroc r) (overall_best_val_auroc s) then
    {| overall_best_val_auroc := val_auroc r;
       overall_best_test_auroc := Some (test_auroc r);
       best_folder := Some (folder r);
       best_file := Some (file r);
       results := results s ++ [r] |}
  else
    {| overall_best_val_auroc := overall_best_val_auroc s;
       overall_best_test_auroc := overall_best_test_auroc s;
       best_folder := best_folder s;
       best_file := best_file s;
       results := results s ++ [r] |}.

Definition folder_lines (sc : script) (r : FolderResult) : list event :=
  [PFolder sc (folder r); PFile sc (file r);
   PBestVal sc (val_auroc r); PCorrTest sc (test_auroc r)]
  ++ match sc with Single => [PBlank] | Multi => [] end.

(** What one round of the loop prints. *)
Definition folder_output (sc : script) (fs : FS) (root_directory folder_name : string)
  : list event :=
  let folder_path := Path.join root_directory folder_name in
  if isdir fs folder_path then
    match first_without_info (glob_csv fs folder_path) with
    | Some csv_file =>
        output (process_csv_file fs csv_file) ++
        match folder_result fs root_directory folder_name with
        | Some r => folder_lines sc r
        | None => []
        end
    | None => [PWarnNoCsv folder_path]
    end
  else [].

(** The loop variables once the whole root has been scanned. *)
Definition scanned (fs : FS) (root_directory : string) : scan_state :=
  fold_left track (valid_results fs root_directory) scan_init.

(** The closing lines of [eval.py]'s [analyze_directory]. *)
Definition overall_lines (s : scan_state) : list event :=
  [PRule 50; POverallTitle; PRule 50] ++
  match overall_best_test_auroc s with
  | Some t =>
      [POverallBestVal (overall_best_val_auroc s); POverallCorrTest t;
       PFoundInFolder (best_folder s); PFromFile (best_file s)]
  | None => [PNoValidResults]
  end.

(** The triple [eval_mult.py]'s [analyze_directory] returns. *)
Definition summary (s : scan_state) : option float * option float * list FolderResult :=
  match overall_best_test_auroc s with
  | Some t => (Some (overall_best_val_auroc s), Some t, results s)
  | None => (None, None, results s)
  end.

Definition scan_output (sc : script) (fs : FS) (root_directory : string) : list event :=
  flat_map (folder_output sc fs root_directory) (listing fs root_directory).

Definition is_file (fs : FS) (p : string) : bool :=
  match fs !! p with Some (File _) => true | _ => false end.

(** The best pair a root contributes to the averages, if any, and the
    folder results it contributes then. *)
Definition root_best (fs : FS) (directory : string) : option (float * float) :=
  match outcome (EvalMult.analyze_directory fs directory) with
  | inr (Some v, Some t, _) => Some (v, t)
  | _ => None
  end.

Definition root_results (fs : FS) (directory : string) : list FolderResult :=
  match outcome (EvalMult.analyze_directory fs directory) with
  | inr (Some _, Some _, rs) => rs
  | _ => []
  end.

(** The valid per-root bests of a list of roots, in order. *)
Definition valid_bests (fs : FS) (directory_list : list string) : list (float * float) :=
  omap (root_best fs) directory_list.

(** The effect of one root on the accumulators. *)
Definition accumulate (fs : FS) (s : EvalMult.multi_state) (directory : string)
  : EvalMult.multi_state :=
  match outcome (EvalMult.analyze_directory fs directory) with
  | inr (Some v, Some t, rs) =>
      {| EvalMult.all_best_val_aurocs := EvalMult.all_best_val_aurocs s ++ [v];
         EvalMult.all_best_test_aurocs := EvalMult.all_best_test_aurocs s ++ [t];
         EvalMult.all_results := EvalMult.all_results s ++ rs |}
  | _ => s
  end.

(** What one round of the loop over the roots prints. *)
Definition root_lines (fs : FS) (n : nat) (id : nat * string) : list event :=
  [PAnalyzingDir id.1 n id.2; PDashes 40] ++
  output (EvalMult.analyze_directory fs id.2) ++
  match root_best fs id.2 with
  | Some (v, t) => [PDirBestVal v; PDirCorrTest t]
  | None => [PDirNoValid id.2]
  end.

(** The mean, minimum and maximum as the script computes them. *)
Definition fmean (l : list float) : float :=
  F64.div (EvalMult.py_sum l) (F64.of_nat (length l)).

Definition fmin (l : list float) : float :=
  match l with x :: l' => EvalMult.min_from x l' | [] => F64.nan end.

Definition fmax (l : list float) : float :=
  match l with x :: l' => EvalMult.max_from x l' | [] => F64.nan end.

(** The lines of the individual results: the i-th root of the list with
    the i-th valid pair. *)
Definition individual_lines (directory_list : list string) (pairs : list (float * float))
  : list event :=
  map (λ dp, PIndividualLine dp.1 dp.2.1 dp.2.2) (zip directory_list pairs).

(** The lines [analyze_multiple_directories] prints after its loop when
    some root has a best. *)
Definition statistics_lines (directory_list : list string) (pairs : list (float * float))
  : list event :=
  [PRule 60; POverallAllTitle; PRule 60;
   PNumProcessed (length directory_list); PNumValid (length pairs);
   PAvgVal (fmean pairs.*1); PAvgTest (fmean pairs.*2); PDetailed;
   PValMinMax (fmin pairs.*1) (fmax pairs.*1);
   PTestMinMax (fmin pairs.*2) (fmax pairs.*2);
   PIndividual] ++ individual_lines directory_list pairs.

Definition loop_lines (fs : FS) (directory_list : list string) : list event :=
  [PAnalyzing; PRule 60] ++
  flat_map (root_lines fs (length directory_list)) (EvalMult.enumerate 1 directory_list).

(** A root with the single folder [A], whose [metrics.csv] has one row. *)
Definition single_root (root : string) (v t : float) : list (string * node) :=
  [(root, Dir ["A"]);
   (Path.join root "A", Dir ["metrics.csv"]);
   (Path.join (Path.join root "A") "metrics.csv",
    File (inr (table_of_rows [(v, t)])))].

(** The only [val_auroc] of the root is minus infinity. *)
Definition fs_neg_inf : FS :=
  {| nodes := list_to_map (single_root "runs" F64.neg_inf (F64.dec 1 2)) |}.

(** Folders [A] (0.81, 0.79) and [B] (0.85, 0.77) of the specification,
    then a folder with a side file only, one whose table lacks
    [test_auroc], one whose table does not parse, and a last valid one. *)
Definition fs_runs : FS := {| nodes := list_to_map [
  ("runs", Dir ["A"; "B"; "C"; "D"; "E"; "notes.txt"; "F"]);
  ("runs/A", Dir ["run_info.csv"; "metrics.csv"]);
  ("runs/A/metrics.csv",
   File (inr (table_of_rows [(F64.dec 70 100, F64.dec 60 100);
                             (F64.dec 81 100, F64.dec 79 100)])));
  ("runs/A/run_info.csv", File (inl ParserError));
  ("runs/B", Dir ["metrics.csv"]);
  ("runs/B/metrics.csv", File (inr (table_of_rows [(F64.dec 85 100, F64.dec 77 100)])));
  ("runs/C", Dir ["INFO.csv"; "readme.md"]);
  ("runs/D", Dir ["metrics.csv"]);
  ("runs/D/metrics.csv",
   File (inr {| df_columns := ["epoch"; "val_auroc"]; df_nrows := 1;
                df_at := λ _ _, F64.dec 1 2 |}));
  ("runs/E", Dir ["metrics.csv"]);
  ("runs/E/metrics.csv", File (inl ParserError));
  ("runs/notes.txt", File (inl ParserError));
  ("runs/F", Dir ["metrics.csv"]);
  ("runs/F/metrics.csv", File (inr (table_of_rows [(F64.dec 85 100, F64.dec 90 100)])))] |}.

(** A root none of whose folders has a usable table. *)
Definition fs_barren : FS := {| nodes := list_to_map [
  ("runs", Dir ["C"; "E"]);
  ("runs/C", Dir ["INFO.csv"]);
  ("runs/E", Dir ["metrics.csv"]);
  ("runs/E/metrics.csv", File (inl ParserError))] |}.

(** Two folders whose names differ by brackets, which [glob] reads as a
    pattern, and the same root without the folder [run1]. *)
Definition fs_pattern : FS := {| nodes := list_to_map [
  ("runs", Dir ["run1"; "run[1]"]);
  ("runs/run1", Dir ["other.csv"]);
  ("runs/run1/other.csv", File (inr (table_of_rows [(F64.dec 5 10, F64.dec 4 10)])));
  ("runs/run[1]", Dir ["metrics.csv"]);
  ("runs/run[1]/metrics.csv",
   File (inr (table_of_rows [(F64.dec 9 10, F64.dec 8 10)])))] |}.

Definition fs_pattern_alone : FS := {| nodes := list_to_map [
  ("runs", Dir ["run[1]"]);
  ("runs/run[1]", Dir ["metrics.csv"]);
  ("runs/run[1]/metrics.csv",
   File (inr (table_of_rows [(F64.dec 9 10, F64.dec 8 10)])))] |}.



(** The lines that report an average. *)
Definition is_average_line (ev : event) : bool :=
  match ev with
  | PAvgVal _ | PAvgTest _ | PFinalVal _ | PFinalTest _ => true
  | _ => false
  end.

(** A folder that cannot give a result, with the line printed for it: no
    selectable file; a selected file that is unreadable or does not parse;
    a selected table that lacks a required column. *)
Inductive skipped (fs : FS) (folder_path : string) : event → Prop :=
| skipped_no_csv :
    first_without_info (glob_csv fs folder_path) = None →
    skipped fs folder_path (PWarnNoCsv folder_path)
| skipped_malformed csv_file e :
    first_without_info (glob_csv fs folder_path) = Some csv_file →
    fs !! csv_file = Some (File (inl e)) →
    skipped fs folder_path (PErrProcessing csv_file e)
| skipped_columns csv_file df :
    first_without_info (glob_csv fs folder_path) = Some csv_file →
    fs !! csv_file = Some (File (inr df)) →
    has_column df "val_auroc" && has_column df "test_auroc" = false →
    skipped fs folder_path (PWarnColumns csv_file).

Definition is_warning (ev : event) : bool :=
  match ev with
  | PWarnNoCsv _ | PWarnColumns _ | PErrProcessing _ _ => true
  | _ => false
  end.

(** Two roots, [r1] and [r2], whose bests are (0.8, 0.7) and (0.9, 0.6);
    nothing exists at any other path. *)
Definition fs_two_roots : FS :=
  {| nodes := list_to_map (single_root "r1" (F64.dec 8 10) (F64.dec 7 10) ++
                           single_root "r2" (F64.dec 9 10) (F64.dec 6 10)) |}.

(** The warnings of [eval_mult.py]'s [main] for the roots that do not
    exist. *)
Definition skip_warnings (fs : FS) (directory_paths : list string) : list event :=
  PWarnSkip <$> filter (λ d, exists_ fs d = false) directory_paths.

Definition existing (fs : FS) (directory_paths : list string) : list string :=
  filter (λ d, exists_ fs d = true) directory_paths.

(** A table whose [val_auroc] column mixes NaN cells with numbers. *)
Definition nan_table : DataFrame :=
  table_of_rows [(F64.nan, F64.dec 1 10);
                 (F64.dec 7 10, F64.dec 6 10);
                 (F64.nan, F64.dec 2 10);
                 (F64.dec 9 10, F64.dec 5 10);
                 (F64.dec 9 10, F64.dec 8 10)].

Definition is_blank (ev : event) : bool :=
  match ev with PBlank => true | _ => false end.

(** A line of [eval.py] as [eval_mult.py] prints it: the four lines of a
    folder two spaces deeper, every other line alike. *)
Definition deeper (ev : event) : event :=
  match ev with
  | PFolder _ folder_name => PFolder Multi folder_name
  | PFile _ file => PFile Multi file
  | PBestVal _ v => PBestVal Multi v
  | PCorrTest _ t => PCorrTest Multi t
  | _ => ev
  end.

(** A computation that does not end in [SystemExit]. *)
Definition no_exit {A} (m : M A) : Prop := ∀ code, outcome m ≠ inl (SystemExit code).

(** Two roots; the only row of the first has no [test_auroc] value. *)
Definition fs_nan_test : FS :=
  {| nodes := list_to_map (single_root "r1" (F64.dec 8 10) F64.nan ++
                           single_root "r2" (F64.dec 9 10) (F64.dec 6 10)) |}.

(** * Properties *)

(** ** The order on binary64 numbers *)

Module F64Facts.
Import F64.

Lemma compare_rank x y :
  is_nan x = false -> is_nan y = false ->
  SFcompare x y = Some (lex3 (rank x) (rank y)).
Proof.
  intros Hx Hy.
  destruct x as [sx|sx| |sx mx ex], y as [sy|sy| |sy my ey];
    try discriminate; try destruct sx; try destruct sy; try reflexivity.
  (* two negative finite numbers: exponents and mantissas compare in reverse *)
  cbn. rewrite Z.compare_opp, (Z.compare_antisym ey ex).
  destruct (ey ?= ex)%Z; reflexivity.
Qed.

Lemma compare_nan_l y : SFcompare nan y = None.
Proof. now destruct y. Qed.

Lemma compare_nan_r x : SFcompare x nan = None.
Proof. now destruct x as [[]|[]| |[]]. Qed.

Lemma lex3_Lt_trans p q r :
  lex3 p q = Lt -> lex3 q r = Lt -> lex3 p r = Lt.
Proof.
  destruct p as [[a1 b1] c1], q as [[a2 b2] c2], r as [[a3 b3] c3].
  unfold lex3.
  destruct (Z.compare_spec a1 a2), (Z.compare_spec a2 a3),
    (Z.compare_spec a1 a3); try discriminate; try lia; try reflexivity;
    destruct (Z.compare_spec b1 b2), (Z.compare_spec b2 b3),
      (Z.compare_spec b1 b3); try discriminate; try lia; try reflexivity;
    destruct (Z.compare_spec c1 c2), (Z.compare_spec c2 c3),
      (Z.compare_spec c1 c3); try discriminate; try lia; reflexivity.
Qed.

Lemma lex3_Eq p q : lex3 p q = Eq -> p = q.
Proof.
  destruct p as [[a1 b1] c1], q as [[a2 b2] c2]. unfold lex3.
  destruct (Z.compare_spec a1 a2); try discriminate.
  destruct (Z.compare_spec b1 b2); try discriminate.
  destruct (Z.compare_spec c1 c2); try discriminate.
  intros _. congruence.
Qed.

Lemma lex3_refl p : lex3 p p = Eq.
Proof.
  destruct p as [[a b] c]. unfold lex3. now rewrite !Z.compare_refl.
Qed.

Lemma lex3_antisym p q : lex3 q p = CompOpp (lex3 p q).
Proof.
  destruct p as [[a1 b1] c1], q as [[a2 b2] c2]. unfold lex3.
  rewrite (Z.compare_antisym a1 a2), (Z.compare_antisym b1 b2),
    (Z.compare_antisym c1 c2).
  destruct (a1 ?= a2)%Z, (b1 ?= b2)%Z, (c1 ?= c2)%Z; reflexivity.
Qed.

(** *** Facts on [ltb] and [leb] *)

Lemma ltb_not_nan x y : ltb x y = true -> is_nan x = false /\ is_nan y = false.
Proof.
  unfold ltb, SFltb. destruct x as [[]|[]| |[]], y as [[]|[]| |[]];
    cbn; try discriminate; auto.
Qed.

Lemma leb_not_nan x y : leb x y = true -> is_nan x = false /\ is_nan y = false.
Proof.
  unfold leb, SFleb. destruct x as [[]|[]| |[]], y as [[]|[]| |[]];
    cbn; try discriminate; auto.
Qed.

Lemma ltb_rank x y :
  is_nan x = false -> is_nan y = false ->
  ltb x y = true <-> lex3 (rank x) (rank y) = Lt.
Proof.
  intros Hx Hy. unfold ltb, SFltb. rewrite compare_rank by assumption.
  destruct (lex3 (rank x) (rank y)); split; congruence.
Qed.

Lemma leb_rank x y :
  is_nan x = false -> is_nan y = false ->
  leb x y = true <-> lex3 (rank x) (rank y) <> Gt.
Proof.
  intros Hx Hy. unfold leb, SFleb. rewrite compare_rank by assumption.
  destruct (lex3 (rank x) (rank y)); split; congruence.
Qed.

Lemma ltb_irrefl x : ltb x x = false.
Proof.
  destruct (is_nan x) eqn:Hx.
  - destruct x; try discriminate. reflexivity.
  - destruct (ltb x x) eqn:E; [|reflexivity].
    apply ltb_rank in E; try assumption. rewrite lex3_refl in E. discriminate.
Qed.

Lemma leb_refl x : is_nan x = false -> leb x x = true.
Proof. intros Hx. apply leb_rank; try assumption. now rewrite lex3_refl. Qed.

Lemma ltb_leb x y : ltb x y = true -> leb x y = true.
Proof.
  unfold ltb, leb, SFltb, SFleb. now destruct (SFcompare x y) as [[]|].
Qed.

Lemma ltb_trans x y z : ltb x y = true -> ltb y z = true -> ltb x z = true.
Proof.
  intros H1 H2.
  destruct (ltb_not_nan _ _ H1) as [Hx Hy], (ltb_not_nan _ _ H2) as [_ Hz].
  apply ltb_rank in H1, H2; try assumption. apply ltb_rank; try assumption.
  eapply lex3_Lt_trans; eassumption.
Qed.

Lemma lex3_le_lt_trans p q r :
  lex3 p q <> Gt -> lex3 q r = Lt -> lex3 p r = Lt.
Proof.
  intros H1 H2. destruct (lex3 p q) eqn:E.
  - apply lex3_Eq in E. now subst.
  - eapply lex3_Lt_trans; eassumption.
  - congruence.
Qed.

Lemma lex3_lt_le_trans p q r :
  lex3 p q = Lt -> lex3 q r <> Gt -> lex3 p r = Lt.
Proof.
  intros H1 H2. destruct (lex3 q r) eqn:E.
  - apply lex3_Eq in E. now subst.
  - eapply lex3_Lt_trans; eassumption.
  - congruence.
Qed.

Lemma leb_ltb_trans x y z : leb x y = true -> ltb y z = true -> ltb x z = true.
Proof.
  intros H1 H2.
  destruct (leb_not_nan _ _ H1) as [Hx Hy], (ltb_not_nan _ _ H2) as [_ Hz].
  apply leb_rank in H1; try assumption. apply ltb_rank in H2; try assumption.
  apply ltb_rank; try assumption. eapply lex3_le_lt_trans; eassumption.
Qed.

Lemma ltb_leb_trans x y z : ltb x y = true -> leb y z = true -> ltb x z = true.
Proof.
  intros H1 H2.
  destruct (ltb_not_nan _ _ H1) as [Hx Hy], (leb_not_nan _ _ H2) as [_ Hz].
  apply ltb_rank in H1; try assumption. apply leb_rank in H2; try assumption.
  apply ltb_rank; try assumption. eapply lex3_lt_le_trans; eassumption.
Qed.

Lemma leb_trans x y z : leb x y = true -> leb y z = true -> leb x z = true.
Proof.
  intros H1 H2.
  destruct (leb_not_nan _ _ H1) as [Hx Hy], (leb_not_nan _ _ H2) as [_ Hz].
  apply leb_rank in H1, H2; try assumption. apply leb_rank; try assumption.
  intros E. destruct (lex3 (rank y) (rank z)) eqn:E2; try congruence.
  - apply lex3_Eq in E2. congruence.
  - pose proof (lex3_le_lt_trans _ _ _ H1 E2). congruence.
Qed.

(** The order is total away from NaN. *)
Lemma ltb_false_leb x y :
  is_nan x = false -> is_nan y = false -> ltb x y = false -> leb y x = true.
Proof.
  intros Hx Hy H. apply leb_rank; try assumption.
  rewrite lex3_antisym. intros E.
  assert (lex3 (rank x) (rank y) = Lt) as E'
      by (destruct (lex3 (rank x) (rank y)); cbn in E; congruence).
  apply ltb_rank in E'; try assumption. congruence.
Qed.

Lemma leb_false_of_ltb x y : ltb x y = true -> leb y x = false.
Proof.
  intros H. destruct (leb y x) eqn:E; [|reflexivity].
  pose proof (ltb_leb_trans _ _ _ H E) as C. now rewrite ltb_irrefl in C.
Qed.

Lemma neg_inf_leb x : is_nan x = false -> leb neg_inf x = true.
Proof. now destruct x as [[]|[]| |[]]. Qed.

Lemma ltb_neg_inf x : ltb x neg_inf = false.
Proof. now destruct x as [[]|[]| |[]]. Qed.

End F64Facts.

(** ** Reasoning in the monad *)

Section Monad.
Context {A B C : Type}.

Lemma bind_ret (a : A) (f : A → M B) : (mret a ≫= f) = f a.
Proof. unfold mbind, M_bind, mret, M_ret. now destruct (f a). Qed.

Lemma bind_inr (out : list event) (a : A) (f : A → M B) :
  ((out, inr a) ≫= f) = (out ++ (f a).1, (f a).2).
Proof. unfold mbind, M_bind. now destruct (f a). Qed.

Lemma bind_inl (out : list event) (r : raised) (f : A → M B) :
  ((out, inl r) ≫= f) = (out, inl r).
Proof. reflexivity. Qed.

Lemma bind_assoc (m : M A) (f : A → M B) (g : B → M C) :
  ((m ≫= f) ≫= g) = (m ≫= λ a, f a ≫= g).
Proof.
  destruct m as [out [r|a]]; [reflexivity|].
  unfold mbind, M_bind. destruct (f a) as [out' [r|b]]; [reflexivity|].
  destruct (g b). now rewrite app_assoc.
Qed.

Lemma bind_print (ev : event) (f : unit → M B) :
  (print ev ≫= f) = (ev :: (f tt).1, (f tt).2).
Proof. unfold print, mbind, M_bind. now destruct (f tt). Qed.

End Monad.

Lemma for_each_app {A S} (xs ys : list A) (body : A → S → M S) (s : S) :
  for_each (xs ++ ys) body s = (for_each xs body s ≫= for_each ys body).
Proof.
  revert s. induction xs as [|x xs IH]; intros s.
  - symmetry. apply (bind_ret s).
  - change ((body x s ≫= for_each (xs ++ ys) body) =
            ((body x s ≫= for_each xs body) ≫= for_each ys body)).
    rewrite bind_assoc.
    destruct (body x s) as [out [r|s']]; [reflexivity|].
    rewrite !bind_inr. now rewrite IH.
Qed.

Lemma bind_nil {A B} (a : A) (f : A → M B) : (([], inr a) ≫= f) = f a.
Proof. apply bind_ret. Qed.

(** Runs the steps of a computation whose first results are known. *)
Ltac mstep :=
  unfold mret, M_ret;
  repeat first [rewrite bind_nil | rewrite bind_print | rewrite bind_inl].

(** ** Paths *)

Lemma append_cons c (a b : string) : String c a +:+ b = String c (a +:+ b).
Proof. reflexivity. Qed.

Lemma append_nil (b : string) : "" +:+ b = b.
Proof. reflexivity. Qed.

Lemma append_nil_r (a : string) : a +:+ "" = a.
Proof. induction a as [|c a IH]; [reflexivity|]. now rewrite append_cons, IH. Qed.

Lemma string_app_assoc (a b c : string) : (a +:+ b) +:+ c = a +:+ (b +:+ c).
Proof.
  induction a as [|x a IH]; [reflexivity|].
  rewrite !append_cons. now rewrite IH.
Qed.

Lemma string_length_app (a b : string) :
  String.length (a +:+ b) = String.length a + String.length b.
Proof.
  induction a as [|c a IH]; [reflexivity|].
  rewrite append_cons. cbn [String.length]. now rewrite IH.
Qed.

Lemma any_app f (a b : string) : Path.any f (a +:+ b) = Path.any f a || Path.any f b.
Proof.
  induction a as [|c a IH]; [reflexivity|].
  rewrite append_cons. cbn [Path.any]. now rewrite IH, orb_assoc.
Qed.

(** *** [os.path.split] cuts a path in two *)

Lemma head_basename p : p = Path.head p +:+ Path.basename p.
Proof.
  induction p as [|c p IH]; [reflexivity|]. cbn [Path.head Path.basename].
  destruct (Path.has_sep p).
  - rewrite append_cons. now rewrite <- IH.
  - destruct (Ascii.eqb c Path.sep); reflexivity.
Qed.

Lemma rstrip_prefix h : ∃ t, h = Path.rstrip h +:+ t.
Proof.
  induction h as [|c h [t IH]]; [now exists ""|]. cbn [Path.rstrip].
  destruct (Path.rstrip h) as [|x r] eqn:E.
  - destruct (Ascii.eqb c Path.sep).
    + now exists (String c h).
    + exists h. reflexivity.
  - exists t. rewrite append_cons. now rewrite <- IH.
Qed.

Lemma split_fst_prefix p : ∃ t, p = (Path.split p).1 +:+ t.
Proof.
  unfold Path.split. cbn [fst].
  destruct (rstrip_prefix (Path.head p)) as [t Ht].
  destruct (Path.rstrip (Path.head p)) as [|x r] eqn:E.
  - exists (Path.basename p). apply head_basename.
  - exists (t +:+ Path.basename p). rewrite <- string_app_assoc, <- Ht.
    apply head_basename.
Qed.

Lemma split_snd_suffix p : p = Path.head p +:+ (Path.split p).2.
Proof. apply head_basename. Qed.

Lemma split_fst_any f p : Path.any f (Path.split p).1 = true → Path.any f p = true.
Proof.
  destruct (split_fst_prefix p) as [t Ht]. intros H.
  rewrite Ht, any_app, H. reflexivity.
Qed.

Lemma split_snd_any f p : Path.any f (Path.split p).2 = true → Path.any f p = true.
Proof.
  intros H. rewrite (split_snd_suffix p), any_app, H. apply orb_true_r.
Qed.

Lemma split_fst_shorter p :
  (Path.split p).1 ≠ p → String.length (Path.split p).1 < String.length p.
Proof.
  destruct (split_fst_prefix p) as [t Ht]. intros Hne.
  destruct t as [|c t].
  - rewrite append_nil_r in Ht. congruence.
  - rewrite Ht at 2. rewrite string_length_app. cbn [String.length]. lia.
Qed.

(** *** Paths without NUL *)

Lemma any_false_app f (a b : string) :
  Path.any f a = false → Path.any f b = false → Path.any f (a +:+ b) = false.
Proof. intros Ha Hb. now rewrite any_app, Ha, Hb. Qed.

Lemma join_any f a b :
  f Path.sep = false → Path.any f a = false → Path.any f b = false →
  Path.any f (Path.join a b) = false.
Proof.
  intros Hs Ha Hb. unfold Path.join.
  destruct (Path.startswith "/" b); [assumption|].
  destruct (_ || _).
  - now apply any_false_app.
  - apply any_false_app; [assumption|]. apply any_false_app; [|assumption].
    unfold Path.sep in Hs. cbn [Path.any]. now rewrite Hs.
Qed.

Lemma join_any_r f a b : Path.any f (Path.join a b) = false → Path.any f b = false.
Proof.
  unfold Path.join. destruct (Path.startswith "/" b); [auto|].
  destruct (_ || _); rewrite !any_app; intros H; repeat apply orb_false_iff in H as [? H]; auto.
Qed.

(** *** Base names *)

Lemma has_sep_app_sep a b : Path.has_sep (a +:+ String Path.sep b) = true.
Proof.
  induction a as [|c a IH].
  - reflexivity.
  - rewrite append_cons. cbn [Path.has_sep]. rewrite IH. apply orb_true_r.
Qed.

Lemma basename_no_sep p : Path.has_sep p = false → Path.basename p = p.
Proof.
  destruct p as [|c p]; [reflexivity|]. cbn [Path.has_sep Path.basename].
  intros H. apply orb_false_iff in H as [Hc Hp]. now rewrite Hp, Hc.
Qed.

Lemma basename_app_sep a b :
  Path.has_sep b = false → Path.basename (a +:+ String Path.sep b) = b.
Proof.
  intros Hb. induction a as [|c a IH].
  - rewrite append_nil. cbn [Path.basename]. now rewrite Hb.
  - rewrite append_cons. cbn [Path.basename]. now rewrite has_sep_app_sep.
Qed.

Lemma endswith_sep a :
  Path.endswith "/" a = true → ∃ a0, a = a0 +:+ "/".
Proof.
  induction a as [|c a IH]; cbn [Path.endswith].
  - discriminate.
  - intros H. apply orb_true_iff in H as [H|H].
    + apply String.eqb_eq in H. exists "". now rewrite <- H.
    + destruct (IH H) as [a0 ->]. exists (String c a0). reflexivity.
Qed.


Lemma prefix_sep_no_sep name :
  Path.has_sep name = false → String.prefix "/" name = false.
Proof.
  destruct name as [|c name]; [reflexivity|]. cbn [Path.has_sep String.prefix].
  intros Hn. apply orb_false_iff in Hn as [Hc _].
  destruct (ascii_dec "/" c) as [<-|Hne]; [discriminate|reflexivity].
Qed.

(** [os.path.basename] undoes [os.path.join] on a name free of
    separators. *)
Lemma basename_join a name :
  Path.has_sep name = false → Path.basename (Path.join a name) = name.
Proof.
  intros Hn. unfold Path.join, Path.startswith.
  rewrite (prefix_sep_no_sep _ Hn).
  destruct (String.eqb a "") eqn:Ea.
  - apply String.eqb_eq in Ea. subst a. cbn [orb]. rewrite append_nil.
    now apply basename_no_sep.
  - cbn [orb]. destruct (Path.endswith "/" a) eqn:Es.
    + destruct (endswith_sep a Es) as [a0 ->].
      rewrite string_app_assoc. change ("/" +:+ name) with (String Path.sep name).
      now apply basename_app_sep.
    + change ("/" +:+ name) with (String Path.sep name).
      now apply basename_app_sep.
Qed.


(** ** The file system *)

Lemma lookup_valid (fs : FS) p n : fs !! p = Some n → valid_path p = true.
Proof.
  unfold lookup, FS_lookup. now destruct (valid_path p).
Qed.

Lemma lookup_no_nul (fs : FS) p n : fs !! p = Some n → Path.has_nul p = false.
Proof.
  intros H. apply lookup_valid in H. unfold valid_path in H.
  apply andb_true_iff in H as [_ H]. now apply negb_true_iff in H.
Qed.

Lemma isdir_no_nul fs p : isdir fs p = true → Path.has_nul p = false.
Proof.
  unfold isdir. destruct (fs !! p) eqn:E; [|discriminate].
  intros _. exact (lookup_no_nul _ _ _ E).
Qed.

Lemma isdir_not_empty fs p : isdir fs p = true → p ≠ "".
Proof.
  unfold isdir. destruct (fs !! p) eqn:E; [|discriminate].
  intros _ ->. apply lookup_valid in E. discriminate.
Qed.

Lemma exists_no_nul fs p : exists_ fs p = true → Path.has_nul p = false.
Proof.
  unfold exists_. destruct (fs !! p) eqn:E; [|discriminate].
  intros _. exact (lookup_no_nul _ _ _ E).
Qed.

(** [os.listdir] and [pd.read_csv] by what lies at the path; at a path
    with NUL, where nothing lies, they raise [ValueError]. *)
Lemma listdir_at fs p :
  listdir fs p =
  match fs !! p with
  | Some (Dir entries) => ([], inr entries)
  | Some (File _) => ([], inl (Exc NotADirectoryError))
  | None => ([], inl (Exc (if Path.has_nul p then ValueError else FileNotFoundError)))
  end.
Proof.
  unfold listdir. destruct (fs !! p) as [n|] eqn:E.
  - now rewrite (lookup_no_nul _ _ _ E).
  - now destruct (Path.has_nul p).
Qed.

Lemma read_csv_at fs p :
  read_csv fs p =
  match fs !! p with
  | Some (File (inr df)) => ([], inr df)
  | Some (File (inl e)) => ([], inl (Exc e))
  | Some (Dir _) => ([], inl (Exc IsADirectoryError))
  | None => ([], inl (Exc (if Path.has_nul p then ValueError else FileNotFoundError)))
  end.
Proof.
  unfold read_csv. destruct (fs !! p) as [n|] eqn:E.
  - now rewrite (lookup_no_nul _ _ _ E).
  - now destruct (Path.has_nul p).
Qed.

(** ** [glob.glob] *)

(** *** [glob] returns on a pattern without NUL *)

Lemma listdir_cases fs p :
  Path.has_nul p = false →
  (∃ names, listdir fs p = ([], inr names)) ∨
  (∃ e, listdir fs p = ([], inl (Exc e)) ∧ is_oserror e = true).
Proof.
  intros H. unfold listdir. rewrite H.
  destruct (fs !! p) as [[|entries]|]; [right|left|right]; eauto.
Qed.

Lemma glob_join_no_nul d n :
  Path.has_nul (Glob.join d n) = false → Path.has_nul n = false.
Proof.
  unfold Glob.join. destruct (String.eqb d ""); [auto|].
  destruct (String.eqb n "") eqn:E.
  - apply String.eqb_eq in E. now subst n.
  - apply join_any_r.
Qed.

Lemma Forall_List_filter {A} (P : A → Prop) f (l : list A) :
  Forall P l → Forall P (List.filter f l).
Proof.
  induction 1 as [|x l Hx Hl IH]; cbn; [constructor|].
  destruct (f x); [now constructor|assumption].
Qed.

Lemma iterdir_ok fs d dironly :
  Path.has_nul d = false →
  ∃ names, Glob.iterdir fs d dironly = ([], inr names) ∧
    (dironly = true → Forall (λ n, Path.has_nul n = false) names).
Proof.
  intros Hd. unfold Glob.iterdir.
  assert (Path.has_nul (if String.eqb d "" then "." else d) = false) as Harg
      by (destruct (String.eqb d ""); [reflexivity|assumption]).
  destruct (listdir_cases fs _ Harg) as [[names ->]|(e & -> & ->)].
  - eexists. split; [reflexivity|]. intros ->. cbn [negb orb].
    induction names as [|n names IH]; cbn [List.filter]; [constructor|].
    destruct (isdir fs (Glob.join d n)) eqn:E; [|assumption].
    constructor; [|assumption].
    apply (glob_join_no_nul d). now apply isdir_no_nul in E.
  - exists []. split; [reflexivity|]. constructor.
Qed.

Lemma glob1_ok fs d pattern dironly :
  Path.has_nul d = false →
  ∃ names, Glob.glob1 fs d pattern dironly = ([], inr names) ∧
    (dironly = true → Forall (λ n, Path.has_nul n = false) names).
Proof.
  intros Hd. unfold Glob.glob1.
  destruct (iterdir_ok fs d dironly Hd) as (names & -> & Hn).
  eexists. split; [reflexivity|]. intros Hdo. specialize (Hn Hdo).
  unfold Fnmatch.filter. apply Forall_List_filter.
  destruct (negb _); [now apply Forall_List_filter|assumption].
Qed.

Lemma glob0_ok fs d basename dironly :
  ∃ names, Glob.glob0 fs d basename dironly = ([], inr names) ∧
    Forall (λ n, n = basename) names.
Proof.
  unfold Glob.glob0. destruct (negb _).
  - destruct (exists_ fs _); eexists; (split; [reflexivity|]); repeat constructor.
  - destruct (isdir fs d); eexists; (split; [reflexivity|]); repeat constructor.
Qed.

Lemma chain_ok {A B} (P : A → Prop) (Q : B → Prop) (f : A → M (list B)) xs :
  Forall P xs →
  (∀ x, P x → ∃ ys, f x = ([], inr ys) ∧ Forall Q ys) →
  ∃ zs, Glob.chain f xs = ([], inr zs) ∧ Forall Q zs.
Proof.
  intros Hxs Hf. induction Hxs as [|x xs Hx _ (zs & IH & Hzs)].
  - exists []. split; [reflexivity|constructor].
  - destruct (Hf x Hx) as (ys & Hy & Hys). exists (ys ++ zs).
    cbn [Glob.chain]. rewrite Hy, IH. split; [reflexivity|].
    now apply Forall_app.
Qed.

Lemma iglob_ok fs fuel : ∀ pathname dironly,
  Path.has_nul pathname = false →
  ∃ paths, Glob.iglob fs fuel pathname dironly = ([], inr paths) ∧
    (dironly = true → Forall (λ p, Path.has_nul p = false) paths).
Proof.
  induction fuel as [|fuel IH]; intros pathname dironly Hp; cbn [Glob.iglob].
  - exists []. split; [reflexivity|constructor].
  - pose proof (split_fst_any (Ascii.eqb "000") pathname) as Hd.
    pose proof (split_snd_any (Ascii.eqb "000") pathname) as Hb.
    fold (Path.has_nul pathname) in Hd, Hb.
    fold (Path.has_nul (Path.split pathname).1) in Hd.
    fold (Path.has_nul (Path.split pathname).2) in Hb.
    destruct (Path.split pathname) as [dirname basename]. cbn [fst snd] in Hd, Hb.
    assert (Path.has_nul dirname = false) as Hd'
        by (destruct (Path.has_nul dirname); [rewrite Hd in Hp|]; auto).
    assert (Path.has_nul basename = false) as Hb'
        by (destruct (Path.has_nul basename); [rewrite Hb in Hp|]; auto).
    clear Hd Hb.
    destruct (negb (Glob.has_magic pathname)).
    { destruct (negb _).
      - destruct (exists_ fs pathname); eexists; (split; [reflexivity|]);
          repeat constructor; assumption.
      - destruct (isdir fs dirname); eexists; (split; [reflexivity|]);
          repeat constructor; assumption. }
    destruct (String.eqb dirname "").
    { now apply glob1_ok. }
    assert (∃ dirs, (if negb (String.eqb dirname pathname) && Glob.has_magic dirname
                     then Glob.iglob fs fuel dirname true else mret [dirname])
                    = ([], inr dirs) ∧ Forall (λ p, Path.has_nul p = false) dirs)
        as (dirs & -> & Hdirs).
    { destruct (_ && _).
      - destruct (IH dirname true Hd') as (dirs & -> & H). eauto.
      - exists [dirname]. split; [reflexivity|]. now repeat constructor. }
    rewrite bind_nil.
    destruct (chain_ok (λ p, Path.has_nul p = false)
                (λ p, dironly = true → Path.has_nul p = false)
                (λ dirname0,
                   names ← (if Glob.has_magic basename then Glob.glob1 else Glob.glob0)
                             fs dirname0 basename dironly;
                   mret (map (Path.join dirname0) names)) dirs Hdirs)
      as (zs & -> & Hzs).
    { intros d Hdn. destruct (Glob.has_magic basename).
      - destruct (glob1_ok fs d basename dironly Hdn) as (names & -> & Hn).
        eexists. split; [reflexivity|]. apply Forall_forall. intros p Hin Hdo.
        apply list_elem_of_fmap in Hin as (n & -> & Hin).
        specialize (Hn Hdo). rewrite Forall_forall in Hn.
        apply join_any; [reflexivity|assumption|now apply Hn].
      - destruct (glob0_ok fs d basename dironly) as (names & -> & Hn).
        eexists. split; [reflexivity|]. apply Forall_forall. intros p Hin _.
        apply list_elem_of_fmap in Hin as (n & -> & Hin).
        rewrite Forall_forall in Hn. rewrite (Hn n Hin).
        now apply join_any. }
    eexists. split; [reflexivity|]. intros Hdo.
    eapply Forall_impl; [exact Hzs|]. auto.
Qed.

Lemma glob_returns fs pathname :
  Path.has_nul pathname = false → ∃ paths, Glob.glob fs pathname = ([], inr paths).
Proof.
  intros H. destruct (iglob_ok fs (S (String.length pathname)) pathname false H)
    as (paths & Hp & _).
  eauto.
Qed.

(** *** Enough fuel *)

Lemma iglob_fuel fs n : ∀ m pathname dironly,
  String.length pathname < n → String.length pathname < m →
  Glob.iglob fs n pathname dironly = Glob.iglob fs m pathname dironly.
Proof.
  induction n as [|n IH]; intros [|m] pathname dironly Hn Hm; try lia.
  cbn [Glob.iglob].
  pose proof (split_fst_shorter pathname) as Hlt.
  destruct (Path.split pathname) as [dirname basename]. cbn [fst] in Hlt.
  destruct (negb (Glob.has_magic pathname)); [reflexivity|].
  destruct (String.eqb dirname ""); [reflexivity|].
  destruct (String.eqb dirname pathname) eqn:E; cbn [negb andb]; [reflexivity|].
  apply String.eqb_neq in E. specialize (Hlt E).
  destruct (Glob.has_magic dirname); [|reflexivity].
  rewrite (IH m dirname true) by lia. reflexivity.
Qed.

(** [glob] has fuel enough: more changes nothing. *)
Lemma glob_fuel fs n pathname :
  String.length pathname < n → Glob.iglob fs n pathname false = Glob.glob fs pathname.
Proof. intros H. apply iglob_fuel; [assumption|lia]. Qed.

(** *** The pattern [*.csv] *)

Lemma re_match_lits pat s :
  Fnmatch.re_match (map Fnmatch.Lit (list_ascii_of_string pat)) (list_ascii_of_string s)
  = String.eqb pat s.
Proof.
  revert s. induction pat as [|c pat IH]; intros [|x s]; try reflexivity.
  cbn [list_ascii_of_string map Fnmatch.re_match Fnmatch.item_match String.eqb].
  rewrite IH. now destruct (Ascii.eqb c x).
Qed.

Lemma fnmatch_csv name : Fnmatch.fnmatch name "*.csv" = Path.endswith ".csv" name.
Proof.
  unfold Fnmatch.fnmatch.
  change (Fnmatch.translate 0 (list_ascii_of_string "*.csv"))
    with (Fnmatch.Star :: map Fnmatch.Lit (list_ascii_of_string ".csv")).
  induction name as [|c name IH].
  - reflexivity.
  - cbn [Path.endswith]. rewrite <- IH, <- re_match_lits. reflexivity.
Qed.

Lemma List_filter_filter {A} (f g : A → bool) (l : list A) :
  List.filter f (List.filter g l) = List.filter (λ x, g x && f x) l.
Proof.
  induction l as [|x l IH]; [reflexivity|]. cbn [List.filter].
  destruct (g x); cbn [List.filter andb]; [|assumption].
  destruct (f x); now rewrite IH.
Qed.

Lemma List_filter_true {A} (f : A → bool) (l : list A) :
  (∀ x, f x = true) → List.filter f l = l.
Proof.
  intros H. induction l as [|x l IH]; [reflexivity|].
  cbn [List.filter]. now rewrite H, IH.
Qed.

Lemma glob1_csv fs d :
  Path.has_nul d = false →
  Glob.glob1 fs d "*.csv" false =
  ([], inr (List.filter Path.matches_csv (listing fs (if String.eqb d "" then "." else d)))).
Proof.
  intros Hd. unfold Glob.glob1, Glob.iterdir, listing.
  assert (Path.has_nul (if String.eqb d "" then "." else d) = false) as Harg
      by (destruct (String.eqb d ""); [reflexivity|assumption]).
  unfold listdir. rewrite Harg.
  destruct (fs !! _) as [[|entries]|]; try reflexivity.
  mstep. cbn [negb orb]. rewrite (List_filter_true _ entries) by reflexivity.
  change (negb (Glob.ishidden "*.csv")) with true. cbn iota.
  unfold Fnmatch.filter. rewrite List_filter_filter.
  do 2 f_equal. apply filter_ext. intros n.
  now rewrite fnmatch_csv.
Qed.

(** Patterns with a bracket expression: a set, a negated set, ranges, a
    range whose bounds are in the wrong order, and a bracket that nothing
    closes. *)
Example fnmatch_brackets :
  Fnmatch.fnmatch "run1" "run[1]" = true ∧
  Fnmatch.fnmatch "run[1]" "run[1]" = false ∧
  Fnmatch.fnmatch "b" "[a-c]" = true ∧
  Fnmatch.fnmatch "d" "[a-c]" = false ∧
  Fnmatch.fnmatch "d" "[!a-c]" = true ∧
  Fnmatch.fnmatch "-" "[a-b-c]" = true ∧
  Fnmatch.fnmatch "a" "[z-a]" = false ∧
  Fnmatch.fnmatch "]" "[]]" = true ∧
  Fnmatch.fnmatch "[x" "[?" = true.
Proof. vm_compute. auto 10. Qed.

(** *** The directory part of the pattern *)

Lemma head_app_no_sep a b : Path.has_sep b = false → Path.head (a +:+ b) = Path.head a.
Proof.
  intros Hb. induction a as [|c a IH].
  - rewrite append_nil. destruct b as [|x b]; [reflexivity|].
    cbn [Path.has_sep] in Hb. apply orb_false_iff in Hb as [Hx Hb].
    cbn [Path.head]. now rewrite Hb, Hx.
  - rewrite append_cons. cbn [Path.head]. rewrite IH.
    assert (Path.has_sep (a +:+ b) = Path.has_sep a) as ->; [|reflexivity].
    clear IH. induction a as [|y a IH]; [now rewrite append_nil|].
    rewrite append_cons. cbn [Path.has_sep]. now rewrite IH.
Qed.

Lemma head_any f p : Path.any f (Path.head p) = true → Path.any f p = true.
Proof. intros H. rewrite (head_basename p), any_app, H. reflexivity. Qed.

Lemma rstrip_any f h : Path.any f (Path.rstrip h) = true → Path.any f h = true.
Proof.
  destruct (rstrip_prefix h) as [t Ht]. intros H. rewrite Ht, any_app, H. reflexivity.
Qed.

Lemma join_cases a b :
  Path.startswith "/" b = false →
  Path.join a b = a +:+ b ∨ Path.join a b = (a +:+ "/") +:+ b.
Proof.
  intros Hb. unfold Path.join. rewrite Hb. destruct (_ || _); [now left|right].
  now rewrite string_app_assoc.
Qed.

Lemma glob_dirname_any f directory :
  f Path.sep = false → Path.any f directory = false →
  Path.any f (glob_dirname directory) = false.
Proof.
  intros Hs Hd. unfold glob_dirname, Path.split. cbn [fst].
  assert (Path.any f (Path.head (Path.join directory "*.csv")) = false) as Hh.
  { destruct (join_cases directory "*.csv" eq_refl) as [-> | ->];
      rewrite head_app_no_sep by reflexivity.
    - destruct (Path.any f (Path.head directory)) eqn:E; [|reflexivity].
      apply head_any in E. congruence.
    - destruct (Path.any f (Path.head (directory +:+ "/"))) eqn:E; [|reflexivity].
      apply head_any in E. rewrite any_app, Hd in E. cbn in E.
      unfold Path.sep in Hs. rewrite Hs in E. discriminate. }
  destruct (Path.rstrip _) as [|x r] eqn:E; [assumption|].
  rewrite <- E. destruct (Path.any f (Path.rstrip _)) eqn:E'; [|reflexivity].
  apply rstrip_any in E'. congruence.
Qed.

Lemma head_app_slash a : Path.head (a +:+ "/") = a +:+ "/".
Proof.
  induction a as [|c a IH]; [reflexivity|].
  rewrite append_cons. cbn [Path.head]. rewrite IH.
  assert (Path.has_sep (a +:+ "/") = true) as ->; [|reflexivity].
  clear IH. induction a as [|y a IH]; [reflexivity|].
  rewrite append_cons. cbn [Path.has_sep]. rewrite IH. apply orb_true_r.
Qed.

Lemma rstrip_app_slash a : Path.rstrip (a +:+ "/") = Path.rstrip a.
Proof.
  induction a as [|c a IH]; [reflexivity|].
  rewrite append_cons. cbn [Path.rstrip]. now rewrite IH.
Qed.

Lemma rstrip_plain a : Path.endswith "/" a = false → Path.rstrip a = a.
Proof.
  induction a as [|c a IH]; [reflexivity|]. cbn [Path.endswith Path.rstrip].
  intros H. apply orb_false_iff in H as [Hc Ha]. rewrite (IH Ha).
  destruct a as [|x a]; [|reflexivity].
  destruct (Ascii.eqb c Path.sep) eqn:E; [|reflexivity].
  apply Ascii.eqb_eq in E. subst c. discriminate.
Qed.

(** For a path that is not empty and does not end in a separator, [glob]
    reads the directory as it is written. *)
Lemma glob_dirname_plain directory :
  directory ≠ "" → Path.endswith "/" directory = false →
  glob_dirname directory = directory ∧ glob_listed directory = directory.
Proof.
  intros Hne Hend.
  assert (glob_dirname directory = directory) as Hd.
  { unfold glob_dirname, Path.split, Path.join. cbn [fst].
    change (Path.startswith "/" "*.csv") with false. cbn iota.
    apply String.eqb_neq in Hne. rewrite Hne, Hend. cbn [orb].
    rewrite <- string_app_assoc, head_app_no_sep by reflexivity.
    rewrite head_app_slash, rstrip_app_slash, rstrip_plain by assumption.
    destruct directory; [discriminate|reflexivity]. }
  split; [assumption|]. unfold glob_listed. rewrite Hd.
  apply String.eqb_neq in Hne. now rewrite Hne.
Qed.

Lemma join_any_true f a b : Path.any f b = true → Path.any f (Path.join a b) = true.
Proof.
  intros Hb. unfold Path.join. destruct (Path.startswith "/" b); [assumption|].
  destruct (_ || _); rewrite !any_app, Hb; now rewrite ?orb_true_r.
Qed.

Lemma basename_csv directory : Path.basename (Path.join directory "*.csv") = "*.csv".
Proof. now apply basename_join. Qed.

Lemma glob_csv_literal fs directory :
  Path.has_nul directory = false → Glob.has_magic directory = false →
  Glob.glob fs (Path.join directory "*.csv") =
  ([], inr (map (Path.join (glob_dirname directory))
              (List.filter Path.matches_csv (listing fs (glob_listed directory))))).
Proof.
  intros Hnul Hmagic. unfold Glob.glob, glob_listed. cbn [Glob.iglob].
  pose proof (glob_dirname_any _ directory eq_refl Hnul) as Hdn.
  pose proof (glob_dirname_any _ directory eq_refl Hmagic) as Hdm.
  pose proof (basename_csv directory) as Hb.
  unfold glob_dirname in *. unfold Path.split in *. cbn [fst] in *.
  set (dirname := match Path.rstrip _ with "" => _ | _ => _ end) in *.
  rewrite Hb.
  assert (Glob.has_magic (Path.join directory "*.csv") = true) as ->
      by now apply join_any_true.
  cbn [negb].
  destruct (String.eqb dirname "") eqn:E.
  - apply String.eqb_eq in E. rewrite E. rewrite glob1_csv by reflexivity.
    do 2 f_equal. etransitivity; [symmetry; apply map_id|].
    apply map_ext. intros n. unfold Path.join. now destruct (Path.startswith "/" n).
  - fold (Glob.has_magic dirname) in Hdm. rewrite Hdm, andb_false_r.
    mstep. change (Glob.has_magic "*.csv") with true. cbn iota.
    cbn [Glob.chain]. rewrite glob1_csv by assumption. rewrite E.
    mstep. cbn. now rewrite app_nil_r.
Qed.

(** ** The File Selector *)

(** On a path without NUL the selector returns, and what it returns is the
    first candidate free of the marker. *)
Lemma find_csv_without_info_returns fs directory :
  Path.has_nul directory = false →
  find_csv_without_info fs directory
    = ([], inr (first_without_info (glob_csv fs directory))).
Proof.
  intros Hnul. unfold find_csv_without_info, glob_csv.
  destruct (glob_returns fs (Path.join directory "*.csv")) as [csv_files ->].
  - now apply join_any.
  - now mstep.
Qed.

Lemma list_filter_bool {A} (f : A → bool) (l : list A) :
  List.filter f l = filter (λ x, f x = true) l.
Proof.
  induction l as [|x l IH]; [reflexivity|].
  rewrite filter_cons. cbn [List.filter]. rewrite IH.
  destruct (f x); [rewrite decide_True by reflexivity|rewrite decide_False by discriminate];
    reflexivity.
Qed.

(** The candidates for a directory whose path holds no pattern
    character: the entries of the directory that match, in listing
    order. *)
Lemma glob_csv_listing fs directory :
  Path.has_nul directory = false → Glob.has_magic directory = false →
  glob_csv fs directory =
  map (Path.join (glob_dirname directory))
    (filter (λ n, Path.matches_csv n = true) (listing fs (glob_listed directory))).
Proof.
  intros Hnul Hmagic. unfold glob_csv.
  rewrite (glob_csv_literal fs directory Hnul Hmagic). unfold outcome. cbn [snd].
  now rewrite list_filter_bool.
Qed.

Lemma first_without_info_entries directory (entries : list string) :
  match first_without_info
          (map (Path.join directory) (filter (λ n, Path.matches_csv n = true) entries)) with
  | Some p =>
      ∃ before name after,
        entries = before ++ name :: after ∧ p = Path.join directory name ∧
        Path.matches_csv name = true ∧ is_info p = false ∧
        Forall (λ n, selectable directory n = false) before
  | None => Forall (λ n, selectable directory n = false) entries
  end.
Proof.
  induction entries as [|n entries IH].
  - constructor.
  - rewrite filter_cons. destruct (decide (Path.matches_csv n = true)) as [Hm|Hm].
    + cbn. fold (is_info (Path.join directory n)).
      destruct (is_info (Path.join directory n)) eqn:Hi; cbn.
      * assert (selectable directory n = false) as Hn
            by (unfold selectable; now rewrite Hm, Hi).
        destruct (first_without_info _) as [p|].
        -- destruct IH as (before & name & after & -> & -> & H1 & H2 & H3).
           exists (n :: before), name, after. repeat split; auto.
        -- now constructor.
      * exists [], n, entries. repeat split; auto.
    + assert (selectable directory n = false) as Hn.
      { unfold selectable. destruct (Path.matches_csv n); [congruence|reflexivity]. }
      destruct (first_without_info _) as [p|].
      * destruct IH as (before & name & after & -> & -> & H1 & H2 & H3).
        exists (n :: before), name, after. repeat split; auto.
      * now constructor.
Qed.

(** The selector on a directory whose path holds no pattern character
    and no NUL. *)
Lemma find_csv_without_info_spec fs directory :
  Path.has_nul directory = false → Glob.has_magic directory = false →
  find_csv_without_info fs directory =
  ([], inr (first_without_info
              (map (Path.join (glob_dirname directory))
                 (filter (λ n, Path.matches_csv n = true)
                    (listing fs (glob_listed directory)))))).
Proof.
  intros Hnul Hmagic.
  now rewrite find_csv_without_info_returns, glob_csv_listing.
Qed.

(** X15. The File Selector on a directory whose path holds no pattern
    character of [glob] and no NUL: it returns, without printing or
    raising, the first entry, in the listing order of the directory that
    [glob] lists, whose name matches [*.csv] and whose lower-cased base
    name does not contain [info], joined to the directory part of the
    pattern; it returns [None] when no entry satisfies both.  For a path
    that is not empty and does not end in a separator, the directory
    listed and the directory part are the path itself. *)
Theorem find_csv_without_info_literal (fs : FS) (directory : string) :
  Path.has_nul directory = false → Glob.has_magic directory = false →
  (∃ r, find_csv_without_info fs directory = ([], inr r) ∧
     match r with
     | Some p =>
         ∃ before name after,
           listing fs (glob_listed directory) = before ++ name :: after ∧
           p = Path.join (glob_dirname directory) name ∧
           Path.matches_csv name = true ∧ is_info p = false ∧
           Forall (λ n, selectable (glob_dirname directory) n = false) before
     | None =>
         Forall (λ n, selectable (glob_dirname directory) n = false)
           (listing fs (glob_listed directory))
     end) ∧
  (directory ≠ "" → Path.endswith "/" directory = false →
   glob_dirname directory = directory ∧ glob_listed directory = directory).
Proof.
  intros Hnul Hmagic. split.
  - rewrite find_csv_without_info_spec by assumption.
    eexists. split; [reflexivity|]. apply first_without_info_entries.
  - apply glob_dirname_plain.
Qed.

Lemma find_csv_without_info_literal_witness :
  (∃ r, find_csv_without_info fs_runs "runs/A" = ([], inr r) ∧
     match r with
     | Some p =>
         ∃ before name after,
           listing fs_runs (glob_listed "runs/A") = before ++ name :: after ∧
           p = Path.join (glob_dirname "runs/A") name ∧
           Path.matches_csv name = true ∧ is_info p = false ∧
           Forall (λ n, selectable (glob_dirname "runs/A") n = false) before
     | None =>
         Forall (λ n, selectable (glob_dirname "runs/A") n = false)
           (listing fs_runs (glob_listed "runs/A"))
     end) ∧
  glob_dirname "runs/A" = "runs/A" ∧ glob_listed "runs/A" = "runs/A".
Proof.
  destruct (find_csv_without_info_literal fs_runs "runs/A") as [Hsel Hplain];
    [reflexivity..|].
  split; [exact Hsel|]. apply Hplain; [discriminate|reflexivity].
Defined.

(** On [runs/A] the side file comes first in the listing and is passed
    over; trailing separators are dropped from the path returned. *)
Example find_csv_without_info_skips_info :
  find_csv_without_info fs_runs "runs/A" = ([], inr (Some "runs/A/metrics.csv")) ∧
  find_csv_without_info fs_runs "runs/C" = ([], inr None) ∧
  find_csv_without_info fs_runs "runs/B//" = ([], inr (Some "runs/B/metrics.csv")).
Proof. vm_compute. auto. Qed.

(** C2 at its failing input.  The folder [runs/run[1]] holds
    [metrics.csv], a file the selector may return; the folder [runs/run1]
    next to it holds [other.csv].  Asked for [runs/run[1]], the selector
    returns the file of [runs/run1], since [glob] reads the brackets of the
    folder name as a pattern, and the scan of [runs] records for the
    folder [run[1]] the file and the numbers of [run1].  Where [runs/run1]
    is missing the selector returns [None], and the scan warns that the
    folder [runs/run[1]] holds no file to select. *)
Theorem find_csv_without_info_pattern_directory :
  (listing fs_pattern "runs/run[1]" = ["metrics.csv"] ∧
   selectable "runs/run[1]" "metrics.csv" = true ∧
   find_csv_without_info fs_pattern "runs/run[1]"
     = ([], inr (Some "runs/run1/other.csv")) ∧
   valid_results fs_pattern "runs"
     = [{| folder := "run1"; file := "other.csv";
           val_auroc := F64.dec 5 10; test_auroc := F64.dec 4 10 |};
        {| folder := "run[1]"; file := "other.csv";
           val_auroc := F64.dec 5 10; test_auroc := F64.dec 4 10 |}]) ∧
  (listing fs_pattern_alone "runs/run[1]" = ["metrics.csv"] ∧
   find_csv_without_info fs_pattern_alone "runs/run[1]" = ([], inr None) ∧
   Eval.analyze_directory fs_pattern_alone "runs"
     = ([PWarnNoCsv "runs/run[1]";
         PRule 50; POverallTitle; PRule 50; PNoValidResults], inr (Some []))).
Proof. vm_compute. auto 10. Qed.




(** ** The Metric Extractor *)

Lemma column_lookup df c j :
  j < df_nrows df → column df c !! j = Some (df_at df j c).
Proof.
  intros Hj. unfold column. rewrite list_lookup_fmap, lookup_seq_lt by assumption.
  reflexivity.
Qed.

Lemma column_length df c : length (column df c) = df_nrows df.
Proof. unfold column. now rewrite length_map, length_seq. Qed.

Lemma argmax_from_bound xs : ∀ best_i best i,
  best_i < i → argmax_from best_i best i xs < i + length xs.
Proof.
  induction xs as [|x xs IH]; intros best_i best i Hlt; cbn.
  - lia.
  - destruct (F64.gtb x best).
    + specialize (IH i x (S i)). lia.
    + specialize (IH best_i best (S i)). lia.
Qed.

(** [argmax_from] continues a scan: [pre] has been read, [best] found at
    [best_i] is its first largest value. *)
Lemma argmax_from_spec xs : ∀ pre best_i best,
  Forall (λ x, F64.is_nan x = false) (pre ++ xs) →
  pre !! best_i = Some best →
  (∀ j x, pre !! j = Some x → F64.leb x best = true) →
  (∀ j x, j < best_i → pre !! j = Some x → F64.ltb x best = true) →
  ∃ m, (pre ++ xs) !! argmax_from best_i best (length pre) xs = Some m ∧
    (∀ j x, (pre ++ xs) !! j = Some x → F64.leb x m = true) ∧
    (∀ j x, j < argmax_from best_i best (length pre) xs →
            (pre ++ xs) !! j = Some x → F64.ltb x m = true).
Proof.
  induction xs as [|x xs IH]; intros pre best_i best Hnan Hbest Hle Hlt.
  - rewrite app_nil_r. exists best. cbn. auto.
  - assert (F64.is_nan x = false) as Hx.
    { rewrite Forall_app in Hnan. destruct Hnan as [_ Hnan]. now inversion Hnan. }
    assert (F64.is_nan best = false) as Hb.
    { rewrite Forall_app in Hnan. destruct Hnan as [Hnan _].
      rewrite Forall_lookup in Hnan. exact (Hnan _ _ Hbest). }
    assert (length (pre ++ [x]) = S (length pre)) as Hlen
        by (rewrite length_app; cbn; lia).
    cbn [argmax_from]. change (F64.gtb x best) with (F64.ltb best x).
    destruct (F64.ltb best x) eqn:G.
    + specialize (IH (pre ++ [x]) (length pre) x).
      rewrite Hlen, <- app_assoc in IH.
      change (pre ++ [x] ++ xs) with (pre ++ x :: xs) in IH. apply IH; clear IH.
      * exact Hnan.
      * now rewrite lookup_app_r, Nat.sub_diag by lia.
      * intros j y Hj. apply lookup_app_Some in Hj as [Hj|[_ Hj]].
        -- apply F64Facts.ltb_leb. eapply F64Facts.leb_ltb_trans; [|exact G]. eauto.
        -- apply list_lookup_singleton_Some in Hj as [_ <-].
           now apply F64Facts.leb_refl.
      * intros j y Hj Hy. rewrite lookup_app_l in Hy by assumption.
        eapply F64Facts.leb_ltb_trans; [|exact G]. eauto.
    + specialize (IH (pre ++ [x]) best_i best).
      rewrite Hlen, <- app_assoc in IH.
      change (pre ++ [x] ++ xs) with (pre ++ x :: xs) in IH. apply IH; clear IH.
      * exact Hnan.
      * apply lookup_app_l_Some. exact Hbest.
      * intros j y Hj. apply lookup_app_Some in Hj as [Hj|[_ Hj]].
        -- eauto.
        -- apply list_lookup_singleton_Some in Hj as [_ <-].
           now apply F64Facts.ltb_false_leb.
      * intros j y Hj Hy. apply (Hlt j y Hj).
        rewrite lookup_app_l in Hy; [exact Hy|].
        apply lookup_lt_Some in Hbest. lia.
Qed.

Lemma fill_nan_id (s : list float) :
  Forall (λ x, F64.is_nan x = false) s → map fill_nan s = s.
Proof.
  induction 1 as [|x s Hx _ IH]; [reflexivity|].
  cbn [map]. rewrite IH. unfold fill_nan. now rewrite Hx.
Qed.

(** On a column without NaN, [idxmax] is the first position of the
    largest value. *)
Lemma idxmax_no_nan (s : list float) :
  s ≠ [] → Forall (λ x, F64.is_nan x = false) s →
  ∃ i m, idxmax s = ([], inr i) ∧ s !! i = Some m ∧
    (∀ j x, s !! j = Some x → F64.leb x m = true) ∧
    (∀ j x, j < i → s !! j = Some x → F64.ltb x m = true).
Proof.
  intros Hne Hnan. unfold idxmax. rewrite fill_nan_id by assumption.
  destruct s as [|x xs]; [congruence|].
  assert (F64.is_nan x = false) as Hx by now inversion Hnan.
  cbn [forallb]. rewrite Hx. cbn [andb].
  destruct (argmax_from_spec xs [x] 0 x) as (m & H1 & H2 & H3).
  - exact Hnan.
  - reflexivity.
  - intros [|j] y Hj; cbn in Hj; [|discriminate].
    injection Hj as <-. now apply F64Facts.leb_refl.
  - intros j y Hj. lia.
  - exists (argmax_from 0 x 1 xs), m. auto.
Qed.

(** Whatever the column, [idxmax] either raises [ValueError] or returns a
    position inside it. *)
Lemma idxmax_cases (s : list float) :
  if forallb F64.is_nan s then idxmax s = ([], inl (Exc ValueError))
  else ∃ i, idxmax s = ([], inr i) ∧ i < length s.
Proof.
  unfold idxmax. destruct s as [|x xs]; [reflexivity|].
  cbn [map]. destruct (forallb F64.is_nan (x :: xs)); [reflexivity|].
  eexists. split; [reflexivity|].
  pose proof (argmax_from_bound (map fill_nan xs) 0 (fill_nan x) 1).
  rewrite length_map in H. cbn. lia.
Qed.

(** The outcomes of [process_csv_file], by what lies at the path. *)
Lemma process_csv_file_cases (fs : FS) (csv_path : string) :
  ∃ out r, process_csv_file fs csv_path = (out, inr r) ∧
    match fs !! csv_path with
    | Some (File (inr df)) =>
        if has_column df "val_auroc" && has_column df "test_auroc" then
          if forallb F64.is_nan (column df "val_auroc") then
            out = [PErrProcessing csv_path ValueError] ∧ r = (None, None)
          else out = [] ∧ ∃ v t, r = (Some v, Some t)
        else out = [PWarnColumns csv_path] ∧ r = (None, None)
    | Some (File (inl e)) => out = [PErrProcessing csv_path e] ∧ r = (None, None)
    | Some (Dir _) =>
        out = [PErrProcessing csv_path IsADirectoryError] ∧ r = (None, None)
    | None =>
        out = [PErrProcessing csv_path
                 (if Path.has_nul csv_path then ValueError else FileNotFoundError)] ∧
        r = (None, None)
    end.
Proof.
  unfold process_csv_file. rewrite read_csv_at.
  destruct (fs !! csv_path) as [[[e|df]|entries]|];
    try (eexists _, _; split; [reflexivity|]; split; reflexivity).
  rewrite bind_nil.
  destruct (has_column df "val_auroc") eqn:Hv;
    [destruct (has_column df "test_auroc") eqn:Ht|];
    try (eexists _, _; split; [reflexivity|]; split; reflexivity).
  cbn [negb orb andb].
  pose proof (idxmax_cases (column df "val_auroc")) as Hi.
  destruct (forallb F64.is_nan (column df "val_auroc")).
  - rewrite Hi. eexists _, _. split; [reflexivity|]. split; reflexivity.
  - destruct Hi as (i & -> & Hlt). rewrite column_length in Hlt.
    mstep. unfold loc. apply Nat.ltb_lt in Hlt. rewrite Hlt, Hv, Ht. cbn [andb].
    mstep. eexists _, _. split; [reflexivity|]. eauto.
Qed.

(** C8. [process_csv_file] returns for every path and every file system,
    never raising: an unreadable or unparsable file, a missing column, an
    empty table and a column of NaN only each give [(None, None)] and one
    printed line that names the file; every other table gives a pair of
    numbers and no line. *)
Theorem process_csv_file_never_raises (fs : FS) (csv_path : string) :
  ∃ out r, process_csv_file fs csv_path = (out, inr r) ∧
    match fs !! csv_path with
    | Some (File (inr df)) =>
        if has_column df "val_auroc" && has_column df "test_auroc" then
          if forallb F64.is_nan (column df "val_auroc") then
            r = (None, None) ∧ ∃ e, out = [PErrProcessing csv_path e]
          else out = [] ∧ ∃ v t, r = (Some v, Some t)
        else r = (None, None) ∧ out = [PWarnColumns csv_path]
    | Some (File (inl e)) => r = (None, None) ∧ out = [PErrProcessing csv_path e]
    | Some (Dir _) | None => r = (None, None) ∧ ∃ e, out = [PErrProcessing csv_path e]
    end.
Proof.
  destruct (process_csv_file_cases fs csv_path) as (out & r & Hrun & Hcase).
  exists out, r. split; [exact Hrun|].
  destruct (fs !! csv_path) as [[[e|df]|names]|].
  - destruct Hcase as [-> ->]. auto.
  - destruct (has_column df "val_auroc" && has_column df "test_auroc").
    + destruct (forallb F64.is_nan (column df "val_auroc")).
      * destruct Hcase as [-> ->]. eauto.
      * exact Hcase.
    + destruct Hcase as [-> ->]. auto.
  - destruct Hcase as [-> ->]. eauto.
  - destruct Hcase as [-> ->]. eauto.
Qed.

(** C1, as stated, fails on a table that has both columns and no row: the
    extractor returns [(None, None)] there, not a row of the table. *)
Lemma process_csv_file_header_only :
  let fs := one_file "run/metrics.csv" header_only in
  process_csv_file fs "run/metrics.csv"
    = ([PErrProcessing "run/metrics.csv" ValueError], inr (None, None)) ∧
  ¬ (∀ (fs : FS) (csv_path : string) (df : DataFrame),
       fs !! csv_path = Some (File (inr df)) →
       has_column df "val_auroc" = true → has_column df "test_auroc" = true →
       ∃ i, first_max_row df i ∧
         outcome (process_csv_file fs csv_path)
           = inr (Some (df_at df i "val_auroc"), Some (df_at df i "test_auroc"))).
Proof.
  split; [vm_compute; reflexivity|].
  intros H.
  destruct (H (one_file "run/metrics.csv" header_only) "run/metrics.csv" header_only)
    as (i & _ & Hi); [vm_compute; reflexivity|reflexivity|reflexivity|].
  vm_compute in Hi. discriminate.
Qed.

(** C1, amended. For every table that parses, has both columns, at least
    one row and no NaN in [val_auroc], the extractor prints nothing and
    returns the largest [val_auroc] with the [test_auroc] of the same row,
    the first such row when several hold the largest value. *)
Theorem process_csv_file_first_max (fs : FS) (csv_path : string) (df : DataFrame) :
  fs !! csv_path = Some (File (inr df)) →
  has_column df "val_auroc" = true → has_column df "test_auroc" = true →
  0 < df_nrows df →
  (∀ j, j < df_nrows df → F64.is_nan (df_at df j "val_auroc") = false) →
  ∃ i, first_max_row df i ∧
    process_csv_file fs csv_path
      = ([], inr (Some (df_at df i "val_auroc"), Some (df_at df i "test_auroc"))).
Proof.
  intros Hfile Hv Ht Hrows Hnan.
  destruct (idxmax_no_nan (column df "val_auroc")) as (i & m & Hi & Hm & Hle & Hlt).
  - intros E. apply (f_equal length) in E. rewrite column_length in E.
    cbn in E. lia.
  - apply Forall_lookup. intros j x Hj.
    assert (j < df_nrows df) as Hlt
        by (apply lookup_lt_Some in Hj; now rewrite column_length in Hj).
    rewrite column_lookup in Hj by assumption. injection Hj as <-. auto.
  - assert (i < df_nrows df) as Hin
        by (apply lookup_lt_Some in Hm; now rewrite column_length in Hm).
    rewrite column_lookup in Hm by assumption. injection Hm as <-.
    exists i. split.
    + split; [assumption|]. split.
      * intros j Hj. apply (Hle j). now apply column_lookup.
      * intros j Hj. apply (Hlt j); [assumption|].
        apply column_lookup. lia.
    + unfold process_csv_file. rewrite read_csv_at, Hfile. mstep.
      rewrite Hv, Ht. cbn [negb orb]. rewrite Hi. mstep.
      unfold loc. apply Nat.ltb_lt in Hin. rewrite Hin, Hv, Ht. cbn [andb].
      mstep. reflexivity.
Qed.

Lemma process_csv_file_first_max_witness :
  ∃ i, first_max_row tie_table i ∧
    process_csv_file (one_file "run/metrics.csv" tie_table) "run/metrics.csv"
      = ([], inr (Some (df_at tie_table i "val_auroc"),
                  Some (df_at tie_table i "test_auroc"))).
Proof.
  apply (process_csv_file_first_max
           (one_file "run/metrics.csv" tie_table) "run/metrics.csv" tie_table).
  - vm_compute. reflexivity.
  - reflexivity.
  - reflexivity.
  - cbn. lia.
  - intros [|[|[|j]]] Hj; [reflexivity..|cbn in Hj; lia].
Defined.

(** On the tie-break example the extractor returns the first of the two
    rows with [val_auroc = 0.9], that is [(0.9, 0.5)]. *)
Example process_csv_file_tie :
  process_csv_file (one_file "run/metrics.csv" tie_table) "run/metrics.csv"
    = ([], inr (Some (F64.dec 9 10), Some (F64.dec 5 10))).
Proof. vm_compute. reflexivity. Qed.

(** ** The scan of a root directory *)

Lemma print_folder_lines sc r : print_folder sc r = (folder_lines sc r, inr tt).
Proof. now destruct sc. Qed.

(** One round of the loop never raises; it leaves the loop variables as
    they are unless the folder has a valid result, which it tracks. *)
Lemma scan_folder_spec sc fs root_directory folder_name s :
  scan_folder sc fs root_directory folder_name s =
  (folder_output sc fs root_directory folder_name,
   inr match folder_result fs root_directory folder_name with
       | Some r => track s r
       | None => s
       end).
Proof.
  unfold scan_folder, folder_output, folder_result.
  destruct (isdir fs _) eqn:Hdir; cbn [negb]; [|reflexivity].
  rewrite (find_csv_without_info_returns _ _ (isdir_no_nul _ _ Hdir)). mstep.
  destruct (first_without_info _) as [csv_file|]; [|reflexivity].
  destruct (process_csv_file_cases fs csv_file) as (out & r & Hp & _).
  rewrite Hp. unfold output, outcome. cbn [fst snd].
  rewrite bind_inr.
  destruct r as [[v|] [t|]]; cbn [fst snd]; rewrite ?app_nil_r; try reflexivity.
  rewrite print_folder_lines, bind_inr. unfold track. cbn [fst snd val_auroc].
  destruct (F64.gtb v (overall_best_val_auroc s)); cbn; now rewrite app_nil_r.
Qed.

Lemma omap_cons_match {A B} (f : A → option B) (x : A) (l : list A) :
  omap f (x :: l) = match f x with Some y => y :: omap f l | None => omap f l end.
Proof. reflexivity. Qed.

Lemma scan_spec sc fs root_directory names : ∀ s,
  scan sc fs root_directory names s =
  (flat_map (folder_output sc fs root_directory) names,
   inr (fold_left track (omap (folder_result fs root_directory) names) s)).
Proof.
  unfold scan. induction names as [|n names IH]; intros s; [reflexivity|].
  cbn [for_each]. rewrite scan_folder_spec, bind_inr, IH. cbn [fst snd flat_map].
  rewrite omap_cons_match.
  now destruct (folder_result fs root_directory n).
Qed.

Lemma track_results rs : ∀ s, results (fold_left track rs s) = results s ++ rs.
Proof.
  induction rs as [|r rs IH]; intros s; cbn [fold_left].
  - now rewrite app_nil_r.
  - rewrite IH. unfold track.
    destruct (F64.gtb _ _); cbn [results]; now rewrite <- app_assoc.
Qed.

Lemma track_gt s r :
  F64.gtb (val_auroc r) (overall_best_val_auroc s) = true →
  overall_best_val_auroc (track s r) = val_auroc r ∧
  overall_best_test_auroc (track s r) = Some (test_auroc r) ∧
  best_folder (track s r) = Some (folder r) ∧
  best_file (track s r) = Some (file r).
Proof. intros G. unfold track. rewrite G. auto. Qed.

Lemma track_not_gt s r :
  F64.gtb (val_auroc r) (overall_best_val_auroc s) = false →
  overall_best_val_auroc (track s r) = overall_best_val_auroc s ∧
  overall_best_test_auroc (track s r) = overall_best_test_auroc s ∧
  best_folder (track s r) = best_folder s ∧
  best_file (track s r) = best_file s.
Proof. intros G. unfold track. rewrite G. auto. Qed.

(** The loop variables after tracking [rs] from [s]: either no result
    exceeded the best of [s], which stands; or the best is the first
    result of [rs] that no result of [rs] exceeds. *)
Lemma track_best rs : ∀ s,
  (overall_best_val_auroc (fold_left track rs s) = overall_best_val_auroc s ∧
   overall_best_test_auroc (fold_left track rs s) = overall_best_test_auroc s ∧
   best_folder (fold_left track rs s) = best_folder s ∧
   best_file (fold_left track rs s) = best_file s ∧
   Forall (λ r, F64.gtb (val_auroc r) (overall_best_val_auroc s) = false) rs)
  ∨
  (∃ i r, rs !! i = Some r ∧
     overall_best_val_auroc (fold_left track rs s) = val_auroc r ∧
     overall_best_test_auroc (fold_left track rs s) = Some (test_auroc r) ∧
     best_folder (fold_left track rs s) = Some (folder r) ∧
     best_file (fold_left track rs s) = Some (file r) ∧
     F64.gtb (val_auroc r) (overall_best_val_auroc s) = true ∧
     Forall (λ r', F64.gtb (val_auroc r') (val_auroc r) = false) rs ∧
     (∀ j r', j < i → rs !! j = Some r' →
              F64.leb (val_auroc r) (val_auroc r') = false)).
Proof.
  induction rs as [|r rs IH]; intros s; cbn [fold_left].
  - left. auto.
  - destruct (F64.gtb (val_auroc r) (overall_best_val_auroc s)) eqn:G.
    + destruct (track_gt s r G) as (E1 & E2 & E3 & E4).
      destruct (IH (track s r))
        as [(Hv & Ht & Hfo & Hfi & Hall)
           |(i & r2 & Hi & Hv & Ht & Hfo & Hfi & Hgt & Hall & Hfirst)]; clear IH.
      * (* [r] is tracked and nothing after it exceeds it *)
        right. exists 0, r. rewrite Hv, Ht, Hfo, Hfi, E1 in *.
        repeat split; try assumption; try reflexivity.
        -- constructor; [apply F64Facts.ltb_irrefl|assumption].
        -- intros j r' Hj. lia.
      * (* [r] is tracked and [r2] exceeds it later *)
        right. exists (S i), r2. rewrite E1 in Hgt.
        repeat split; try assumption.
        -- exact (F64Facts.ltb_trans _ _ _ G Hgt).
        -- constructor; [|assumption].
           destruct (F64.gtb (val_auroc r) (val_auroc r2)) eqn:E; [|reflexivity].
           pose proof (F64Facts.ltb_trans _ _ _ Hgt E) as C.
           now rewrite F64Facts.ltb_irrefl in C.
        -- intros [|j] r' Hj Hr'; cbn in Hr'.
           ++ injection Hr' as <-. now apply F64Facts.leb_false_of_ltb.
           ++ apply (Hfirst j); [lia|assumption].
    + destruct (track_not_gt s r G) as (E1 & E2 & E3 & E4).
      destruct (IH (track s r))
        as [(Hv & Ht & Hfo & Hfi & Hall)
           |(i & r2 & Hi & Hv & Ht & Hfo & Hfi & Hgt & Hall & Hfirst)]; clear IH.
      * left. rewrite Hv, Ht, Hfo, Hfi, E1 in *. repeat split; try assumption.
        now constructor.
      * right. exists (S i), r2. rewrite E1 in Hgt.
        repeat split; try assumption.
        -- constructor; [|assumption].
           destruct (F64.gtb (val_auroc r) (val_auroc r2)) eqn:E; [|reflexivity].
           pose proof (F64Facts.ltb_trans _ _ _ Hgt E) as C.
           unfold F64.gtb, F64.ltb in *. congruence.
        -- intros [|j] r' Hj Hr'; cbn in Hr'.
           ++ injection Hr' as <-.
              destruct (F64.leb (val_auroc r2) (val_auroc r)) eqn:E; [|reflexivity].
              pose proof (F64Facts.ltb_leb_trans _ _ _ Hgt E) as C.
              unfold F64.gtb, F64.ltb in *. congruence.
           ++ apply (Hfirst j); [lia|assumption].
Qed.

Lemma scanned_results fs root_directory :
  results (scanned fs root_directory) = valid_results fs root_directory.
Proof. unfold scanned. now rewrite track_results. Qed.

Lemma Eval_analyze_directory_dir fs root_directory names :
  fs !! root_directory = Some (Dir names) →
  Eval.analyze_directory fs root_directory =
  (scan_output Single fs root_directory ++ overall_lines (scanned fs root_directory),
   inr (Some (valid_results fs root_directory))).
Proof.
  intros Hdir. unfold Eval.analyze_directory, exists_, scan_output,
    scanned, valid_results, listing.
  rewrite listdir_at, Hdir. cbn [negb]. mstep. rewrite scan_spec, bind_inr. cbn [fst snd].
  set (s := fold_left track _ scan_init).
  f_equal.
  - f_equal. unfold Eval.print_overall, overall_lines.
    destruct (overall_best_test_auroc s); reflexivity.
  - unfold Eval.print_overall.
    assert (results s = omap (folder_result fs root_directory) names) as <-
        by (unfold s; now rewrite track_results).
    destruct (overall_best_test_auroc s); reflexivity.
Qed.

Lemma EvalMult_analyze_directory_dir fs root_directory names :
  fs !! root_directory = Some (Dir names) →
  EvalMult.analyze_directory fs root_directory =
  (scan_output Multi fs root_directory, inr (summary (scanned fs root_directory))).
Proof.
  intros Hdir. unfold EvalMult.analyze_directory, exists_, scan_output,
    scanned, valid_results, listing, summary.
  rewrite listdir_at, Hdir. cbn [negb]. mstep. rewrite scan_spec, bind_inr. cbn [fst snd].
  destruct (overall_best_test_auroc _); cbn; now rewrite app_nil_r.
Qed.

Lemma Eval_analyze_directory_absent fs root_directory :
  exists_ fs root_directory = false →
  Eval.analyze_directory fs root_directory
    = ([PErrNoDirectory root_directory], inr None).
Proof. intros H. unfold Eval.analyze_directory. now rewrite H. Qed.

Lemma EvalMult_analyze_directory_absent fs root_directory :
  exists_ fs root_directory = false →
  EvalMult.analyze_directory fs root_directory
    = ([PErrNoDirectory root_directory], inr (None, None, [])).
Proof. intros H. unfold EvalMult.analyze_directory. now rewrite H. Qed.

(** The overall best of a scanned root, when some valid result has a
    [val_auroc] above minus infinity: it is the first valid result, in
    iteration order, that no valid result exceeds. *)
Lemma scanned_best fs root_directory :
  Exists (λ r, F64.gtb (val_auroc r) F64.neg_inf = true)
    (valid_results fs root_directory) →
  ∃ i r, valid_results fs root_directory !! i = Some r ∧
    overall_best_val_auroc (scanned fs root_directory) = val_auroc r ∧
    overall_best_test_auroc (scanned fs root_directory) = Some (test_auroc r) ∧
    best_folder (scanned fs root_directory) = Some (folder r) ∧
    best_file (scanned fs root_directory) = Some (file r) ∧
    Forall (λ r', F64.gtb (val_auroc r') (val_auroc r) = false)
      (valid_results fs root_directory) ∧
    (∀ j r', j < i → valid_results fs root_directory !! j = Some r' →
             F64.leb (val_auroc r) (val_auroc r') = false).
Proof.
  intros Hex. unfold scanned.
  destruct (track_best (valid_results fs root_directory) scan_init)
    as [(_ & _ & _ & _ & Hall)|(i & r & Hi & Hv & Ht & Hfo & Hfi & _ & Hall & Hfirst)].
  - exfalso. apply Exists_exists in Hex as (r & Hin & Hr).
    rewrite Forall_forall in Hall. specialize (Hall r Hin).
    cbn [overall_best_val_auroc scan_init] in Hall. congruence.
  - exists i, r. auto 10.
Qed.

(** Without a valid result above minus infinity, no best is recorded. *)
Lemma scanned_none fs root_directory :
  Forall (λ r, F64.gtb (val_auroc r) F64.neg_inf = false)
    (valid_results fs root_directory) →
  overall_best_test_auroc (scanned fs root_directory) = None.
Proof.
  intros Hall. unfold scanned.
  destruct (track_best (valid_results fs root_directory) scan_init)
    as [(_ & Ht & _)|(i & r & Hi & _ & _ & _ & _ & Hgt & _)].
  - exact Ht.
  - exfalso. rewrite Forall_lookup in Hall. specialize (Hall i r Hi).
    cbn [overall_best_val_auroc scan_init] in Hgt. congruence.
Qed.

(** X4. The single-root Aggregator on a root with a valid result above
    minus infinity: both scripts report the first valid result of largest
    [val_auroc] with its [test_auroc], folder and file. *)
Lemma analyze_directory_overall_best fs root_directory names :
  fs !! root_directory = Some (Dir names) →
  Exists (λ r, F64.gtb (val_auroc r) F64.neg_inf = true)
    (valid_results fs root_directory) →
  ∃ i r, valid_results fs root_directory !! i = Some r ∧
    Forall (λ r', F64.gtb (val_auroc r') (val_auroc r) = false)
      (valid_results fs root_directory) ∧
    (∀ j r', j < i → valid_results fs root_directory !! j = Some r' →
             F64.leb (val_auroc r) (val_auroc r') = false) ∧
    Eval.analyze_directory fs root_directory =
      (scan_output Single fs root_directory ++
       [PRule 50; POverallTitle; PRule 50;
        POverallBestVal (val_auroc r); POverallCorrTest (test_auroc r);
        PFoundInFolder (Some (folder r)); PFromFile (Some (file r))],
       inr (Some (valid_results fs root_directory))) ∧
    EvalMult.analyze_directory fs root_directory =
      (scan_output Multi fs root_directory,
       inr (Some (val_auroc r), Some (test_auroc r), valid_results fs root_directory)).
Proof.
  intros Hdir Hex.
  destruct (scanned_best fs root_directory Hex)
    as (i & r & Hi & Hv & Ht & Hfo & Hfi & Hall & Hfirst).
  exists i, r. repeat split; try assumption.
  - rewrite (Eval_analyze_directory_dir _ _ _ Hdir). unfold overall_lines.
    now rewrite Ht, Hv, Hfo, Hfi.
  - rewrite (EvalMult_analyze_directory_dir _ _ _ Hdir). unfold summary.
    now rewrite Ht, Hv, scanned_results.
Qed.

(** ** Several roots *)

Lemma analyze_directory_returns fs directory :
  is_file fs directory = false →
  ∃ out r, EvalMult.analyze_directory fs directory = (out, inr r).
Proof.
  unfold is_file. destruct (fs !! directory) as [[p|names]|] eqn:E; [discriminate|..]; intros _.
  - rewrite (EvalMult_analyze_directory_dir _ _ _ E). eauto.
  - rewrite EvalMult_analyze_directory_absent; [eauto|].
    unfold exists_. now rewrite E.
Qed.

Lemma analyze_one_spec fs n id s :
  is_file fs id.2 = false →
  EvalMult.analyze_one fs n id s = (root_lines fs n id, inr (accumulate fs s id.2)).
Proof.
  intros Hf. destruct id as [i d]. cbn [fst snd] in *.
  destruct (analyze_directory_returns fs d Hf) as (out & r & Hr).
  unfold EvalMult.analyze_one, root_lines, accumulate, root_best. cbn [fst snd].
  mstep. rewrite Hr, bind_inr. unfold output, outcome. cbn [fst snd].
  destruct r as [[[v|] [t|]] rs]; reflexivity.
Qed.

Lemma analyze_loop_spec fs n ids : ∀ s,
  Forall (λ d, is_file fs d = false) ids.*2 →
  for_each ids (EvalMult.analyze_one fs n) s =
  (flat_map (root_lines fs n) ids, inr (fold_left (accumulate fs) ids.*2 s)).
Proof.
  induction ids as [|id ids IH]; intros s Hf; [reflexivity|].
  rewrite fmap_cons in Hf. inversion Hf as [|? ? Hd Hrest]; subst.
  cbn [for_each]. rewrite analyze_one_spec, bind_inr by assumption.
  now rewrite IH.
Qed.

Lemma snd_enumerate {A} (k : nat) (l : list A) : (EvalMult.enumerate k l).*2 = l.
Proof.
  unfold EvalMult.enumerate. apply snd_zip. rewrite length_seq. lia.
Qed.

(** The accumulators after the loop: the pairs of the roots with a best,
    in order, their first components in one list and their second in the
    other. *)
Lemma accumulate_fold fs dirs : ∀ s,
  EvalMult.all_best_val_aurocs (fold_left (accumulate fs) dirs s)
    = EvalMult.all_best_val_aurocs s ++ (valid_bests fs dirs).*1 ∧
  EvalMult.all_best_test_aurocs (fold_left (accumulate fs) dirs s)
    = EvalMult.all_best_test_aurocs s ++ (valid_bests fs dirs).*2 ∧
  EvalMult.all_results (fold_left (accumulate fs) dirs s)
    = EvalMult.all_results s ++ flat_map (root_results fs) dirs.
Proof.
  unfold valid_bests.
  induction dirs as [|d dirs IH]; intros s; cbn [fold_left flat_map].
  - cbn. now rewrite !app_nil_r.
  - destruct (IH (accumulate fs s d)) as (-> & -> & ->).
    rewrite omap_cons_match. unfold accumulate, root_best, root_results.
    destruct (outcome (EvalMult.analyze_directory fs d)) as [e|[[[v|] [t|]] rs]];
      cbn; rewrite <- ?app_assoc; auto.
Qed.

Lemma individual_lines_nil dirs : individual_lines dirs [] = [].
Proof. unfold individual_lines. now destruct dirs. Qed.

Lemma print_individual_step s pairs k d :
  EvalMult.all_best_val_aurocs s = pairs.*1 →
  EvalMult.all_best_test_aurocs s = pairs.*2 →
  EvalMult.print_individual s (k, d) tt =
  (match pairs !! k with Some p => [PIndividualLine d p.1 p.2] | None => [] end,
   inr tt).
Proof.
  intros Hv Ht. unfold EvalMult.print_individual, EvalMult.index.
  rewrite Hv, Ht, length_fmap, !list_lookup_fmap.
  destruct (k <? length pairs) eqn:Hk.
  - apply Nat.ltb_lt in Hk.
    destruct (lookup_lt_is_Some_2 pairs k Hk) as [p Hp].
    rewrite Hp. cbn [fmap option_fmap option_map]. now mstep.
  - apply Nat.ltb_ge in Hk. now rewrite (lookup_ge_None_2 pairs k Hk).
Qed.

Lemma print_individual_spec s pairs :
  EvalMult.all_best_val_aurocs s = pairs.*1 →
  EvalMult.all_best_test_aurocs s = pairs.*2 →
  ∀ dirs k,
    for_each (zip (seq k (length dirs)) dirs) (EvalMult.print_individual s) tt
    = (individual_lines dirs (drop k pairs), inr tt).
Proof.
  intros Hv Ht. induction dirs as [|d dirs IH]; intros k; [reflexivity|].
  cbn [length seq zip zip_with for_each].
  rewrite (print_individual_step s pairs k d Hv Ht), bind_inr, (IH (S k)).
  cbn [fst snd]. f_equal.
  destruct (pairs !! k) as [p|] eqn:Hp.
  - now rewrite (drop_S _ _ _ Hp).
  - apply lookup_ge_None_1 in Hp.
    rewrite !drop_ge by lia. now rewrite !individual_lines_nil.
Qed.

Lemma mean_cons x l : EvalMult.mean (x :: l) = ([], inr (fmean (x :: l))).
Proof. reflexivity. Qed.

(** [analyze_multiple_directories] on roots none of which is a regular
    file: it returns, with the means of the valid per-root bests, or with
    [(None, None, [])] when there is none. *)
Lemma analyze_multiple_directories_spec fs directory_list :
  Forall (λ d, is_file fs d = false) directory_list →
  EvalMult.analyze_multiple_directories fs directory_list =
  match valid_bests fs directory_list with
  | [] =>
      (loop_lines fs directory_list ++
       [PRule 60; POverallAllTitle; PRule 60; PNoValidAny],
       inr (None, None, []))
  | pairs =>
      (loop_lines fs directory_list ++ statistics_lines directory_list pairs,
       inr (Some (fmean pairs.*1), Some (fmean pairs.*2),
            flat_map (root_results fs) directory_list))
  end.
Proof.
  intros Hf. unfold EvalMult.analyze_multiple_directories, loop_lines.
  mstep. cbn [fst snd].
  rewrite analyze_loop_spec by now rewrite snd_enumerate.
  rewrite snd_enumerate, bind_inr. cbn [fst snd].
  destruct (accumulate_fold fs directory_list EvalMult.multi_init) as (Hv & Ht & Hr).
  cbn [EvalMult.multi_init EvalMult.all_best_val_aurocs EvalMult.all_best_test_aurocs
       EvalMult.all_results app] in Hv, Ht, Hr.
  set (s := fold_left (accumulate fs) directory_list EvalMult.multi_init) in *.
  mstep. cbn [fst snd]. rewrite Hv.
  destruct (valid_bests fs directory_list) as [|p pairs] eqn:Hp.
  - cbn [fmap list_fmap]. mstep. cbn [fst snd]. reflexivity.
  - rewrite fmap_cons. rewrite Ht, fmap_cons, !mean_cons. mstep.
    unfold EvalMult.py_min, EvalMult.py_max. mstep.
    unfold EvalMult.enumerate.
    rewrite (print_individual_spec s (p :: pairs) Hv Ht directory_list 0).
    rewrite bind_inr. cbn [fst snd drop]. mstep. cbn [fst snd].
    unfold statistics_lines. rewrite !fmap_cons, Hr. cbn [length fmin fmax].
    rewrite !length_fmap. rewrite app_nil_r.
    reflexivity.
Qed.

(** ** Minimum and maximum *)

Lemma max_from_spec l : ∀ x,
  F64.is_nan x = false → Forall (λ y, F64.is_nan y = false) l →
  F64.is_nan (EvalMult.max_from x l) = false ∧
  F64.leb x (EvalMult.max_from x l) = true ∧
  Forall (λ y, F64.leb y (EvalMult.max_from x l) = true) l ∧
  EvalMult.max_from x l ∈ x :: l.
Proof.
  induction l as [|y l IH]; intros x Hx Hl.
  - cbn. repeat split; auto using F64Facts.leb_refl. apply list_elem_of_here.
  - inversion Hl as [|? ? Hy Hl']; subst.
    change (EvalMult.max_from x (y :: l))
      with (EvalMult.max_from (if F64.gtb y x then y else x) l).
    destruct (F64.gtb y x) eqn:G.
    + destruct (IH y Hy Hl') as (Hn & Hle & Hall & Hin).
      repeat split; try assumption.
      * eapply F64Facts.leb_trans; [apply F64Facts.ltb_leb; exact G|exact Hle].
      * now constructor.
      * now apply list_elem_of_further.
    + destruct (IH x Hx Hl') as (Hn & Hle & Hall & Hin).
      repeat split; try assumption.
      * constructor; [|assumption].
        eapply F64Facts.leb_trans; [|exact Hle]. now apply F64Facts.ltb_false_leb.
      * apply elem_of_cons in Hin as [->|Hin].
        -- apply list_elem_of_here.
        -- now do 2 apply list_elem_of_further.
Qed.

Lemma min_from_spec l : ∀ x,
  F64.is_nan x = false → Forall (λ y, F64.is_nan y = false) l →
  F64.is_nan (EvalMult.min_from x l) = false ∧
  F64.leb (EvalMult.min_from x l) x = true ∧
  Forall (λ y, F64.leb (EvalMult.min_from x l) y = true) l ∧
  EvalMult.min_from x l ∈ x :: l.
Proof.
  induction l as [|y l IH]; intros x Hx Hl.
  - cbn. repeat split; auto using F64Facts.leb_refl. apply list_elem_of_here.
  - inversion Hl as [|? ? Hy Hl']; subst.
    change (EvalMult.min_from x (y :: l))
      with (EvalMult.min_from (if F64.ltb y x then y else x) l).
    destruct (F64.ltb y x) eqn:G.
    + destruct (IH y Hy Hl') as (Hn & Hle & Hall & Hin).
      repeat split; try assumption.
      * eapply F64Facts.leb_trans; [exact Hle|apply F64Facts.ltb_leb; exact G].
      * now constructor.
      * now apply list_elem_of_further.
    + destruct (IH x Hx Hl') as (Hn & Hle & Hall & Hin).
      repeat split; try assumption.
      * constructor; [|assumption].
        eapply F64Facts.leb_trans; [exact Hle|]. now apply F64Facts.ltb_false_leb.
      * apply elem_of_cons in Hin as [->|Hin].
        -- apply list_elem_of_here.
        -- now do 2 apply list_elem_of_further.
Qed.

(** On a non-empty list without NaN, [fmin] and [fmax] are elements of
    the list that bound it. *)
Lemma fmin_fmax_bounds (l : list float) :
  l ≠ [] → Forall (λ y, F64.is_nan y = false) l →
  fmin l ∈ l ∧ fmax l ∈ l ∧
  Forall (λ y, F64.leb (fmin l) y = true ∧ F64.leb y (fmax l) = true) l.
Proof.
  intros Hne Hl. destruct l as [|x l]; [congruence|].
  inversion Hl as [|? ? Hx Hl']; subst. cbn [fmin fmax].
  destruct (max_from_spec l x Hx Hl') as (_ & Hmx & Hmall & Hmin).
  destruct (min_from_spec l x Hx Hl') as (_ & Hnx & Hnall & Hnin).
  repeat split; try assumption.
  constructor; [auto|].
  rewrite Forall_forall in Hmall, Hnall. apply Forall_forall. auto.
Qed.

(** The best [val_auroc] of a root is above minus infinity, hence a
    number. *)
Lemma root_best_val fs directory v t :
  root_best fs directory = Some (v, t) → F64.gtb v F64.neg_inf = true.
Proof.
  unfold root_best.
  destruct (fs !! directory) as [[p|names]|] eqn:E.
  - unfold EvalMult.analyze_directory, exists_. rewrite listdir_at, E. discriminate.
  - rewrite (EvalMult_analyze_directory_dir _ _ _ E). unfold outcome, summary, scanned.
    cbn [snd].
    destruct (track_best (valid_results fs directory) scan_init)
      as [(_ & Ht & _)|(i & r & _ & Hv & Ht & _ & _ & Hgt & _)].
    + rewrite Ht. discriminate.
    + rewrite Ht, Hv. intros [= <- <-]. exact Hgt.
  - rewrite EvalMult_analyze_directory_absent by (unfold exists_; now rewrite E).
    discriminate.
Qed.

Lemma valid_bests_no_nan fs dirs :
  Forall (λ v, F64.is_nan v = false) (valid_bests fs dirs).*1.
Proof.
  apply Forall_fmap, Forall_forall. intros [v t] Hin.
  apply list_elem_of_omap in Hin as (d & _ & Hd).
  apply root_best_val in Hd. now apply F64Facts.ltb_not_nan in Hd.
Qed.

(** ** Concrete file systems *)

(** On the specification's example the overall best is folder [B] with
    0.85 and 0.77; folder [F], which ties on 0.85 later, does not replace
    it. *)
Example analyze_directory_two_folders :
  outcome (EvalMult.analyze_directory fs_runs "runs")
    = inr (Some (F64.dec 85 100), Some (F64.dec 77 100), valid_results fs_runs "runs") ∧
  folder <$> valid_results fs_runs "runs" = ["A"; "B"; "F"] ∧
  best_folder (scanned fs_runs "runs") = Some "B".
Proof. vm_compute. auto. Qed.

(** C3 at its failing input: the root's only folder has the valid result
    [(-inf, 0.5)]; [eval.py] lists it and prints that no valid result was
    found, [eval_mult.py] returns no best beside the non-empty result
    list. *)
Theorem analyze_directory_neg_inf :
  let r := {| folder := "A"; file := "metrics.csv";
              val_auroc := F64.neg_inf; test_auroc := F64.dec 1 2 |} in
  valid_results fs_neg_inf "runs" = [r] ∧
  Eval.analyze_directory fs_neg_inf "runs"
    = (folder_lines Single r ++ [PRule 50; POverallTitle; PRule 50; PNoValidResults],
       inr (Some [r])) ∧
  EvalMult.analyze_directory fs_neg_inf "runs"
    = (folder_lines Multi r, inr (None, None, [r])).
Proof. vm_compute. auto. Qed.

(** ** No results *)

Lemma process_csv_file_no_average fs csv_path :
  Forall (λ ev, is_average_line ev = false) (output (process_csv_file fs csv_path)).
Proof.
  destruct (process_csv_file_cases fs csv_path) as (out & r & -> & H).
  unfold output. cbn [fst].
  destruct (fs !! csv_path) as [[[e|df]|names]|];
    [|destruct (_ && _); [destruct (forallb _ _)|]|..];
    destruct H as [-> _]; repeat constructor.
Qed.

Lemma analyze_directory_no_average fs directory :
  Forall (λ ev, is_average_line ev = false)
    (output (EvalMult.analyze_directory fs directory)).
Proof.
  destruct (fs !! directory) as [[p|names]|] eqn:E.
  - unfold EvalMult.analyze_directory, exists_. rewrite listdir_at, E. constructor.
  - rewrite (EvalMult_analyze_directory_dir _ _ _ E). unfold output, scan_output.
    cbn [fst]. apply Forall_flat_map, Forall_forall. intros n _.
    unfold folder_output. destruct (isdir fs _); [|constructor].
    destruct (first_without_info _) as [csv|]; [|repeat constructor].
    apply Forall_app. split; [apply process_csv_file_no_average|].
    destruct (folder_result fs directory n); repeat constructor.
  - rewrite EvalMult_analyze_directory_absent by (unfold exists_; now rewrite E).
    repeat constructor.
Qed.

Lemma loop_lines_no_average fs dirs :
  Forall (λ ev, is_average_line ev = false) (loop_lines fs dirs).
Proof.
  unfold loop_lines. apply Forall_app. split; [repeat constructor|].
  apply Forall_flat_map, Forall_forall. intros [i d] _.
  unfold root_lines. cbn [fst snd].
  apply Forall_app. split; [repeat constructor|].
  apply Forall_app. split; [apply analyze_directory_no_average|].
  destruct (root_best fs d) as [[v t]|]; repeat constructor.
Qed.

(** C5. A root none of whose subdirectories yields a valid pair gets no
    best: [eval.py] prints that no valid result was found, [eval_mult.py]
    returns [(None, None, [])].  When no root yields a best,
    [analyze_multiple_directories] prints that no valid result was found,
    returns [(None, None, [])] and prints no average. *)
Theorem no_valid_results_reported :
  (∀ (fs : FS) root_directory names,
     fs !! root_directory = Some (Dir names) →
     valid_results fs root_directory = [] →
     Eval.analyze_directory fs root_directory =
       (scan_output Single fs root_directory ++
        [PRule 50; POverallTitle; PRule 50; PNoValidResults], inr (Some [])) ∧
     EvalMult.analyze_directory fs root_directory =
       (scan_output Multi fs root_directory, inr (None, None, []))) ∧
  (∀ (fs : FS) directory_list,
     Forall (λ d, is_file fs d = false) directory_list →
     valid_bests fs directory_list = [] →
     EvalMult.analyze_multiple_directories fs directory_list =
       (loop_lines fs directory_list ++
        [PRule 60; POverallAllTitle; PRule 60; PNoValidAny], inr (None, None, [])) ∧
     Forall (λ ev, is_average_line ev = false) (loop_lines fs directory_list)).
Proof.
  split.
  - intros fs root names Hdir Hnone.
    assert (overall_best_test_auroc (scanned fs root) = None) as Ht
        by (apply scanned_none; rewrite Hnone; constructor).
    rewrite (Eval_analyze_directory_dir _ _ _ Hdir),
      (EvalMult_analyze_directory_dir _ _ _ Hdir).
    unfold overall_lines, summary. rewrite Ht, scanned_results, Hnone. auto.
  - intros fs dirs Hf Hnone.
    rewrite (analyze_multiple_directories_spec _ _ Hf), Hnone.
    split; [reflexivity|apply loop_lines_no_average].
Qed.

Lemma no_valid_results_reported_witness :
  (Eval.analyze_directory fs_barren "runs" =
     (scan_output Single fs_barren "runs" ++
      [PRule 50; POverallTitle; PRule 50; PNoValidResults], inr (Some [])) ∧
   EvalMult.analyze_directory fs_barren "runs" =
     (scan_output Multi fs_barren "runs", inr (None, None, []))) ∧
  (EvalMult.analyze_multiple_directories fs_barren ["runs"; "lost"] =
     (loop_lines fs_barren ["runs"; "lost"] ++
      [PRule 60; POverallAllTitle; PRule 60; PNoValidAny], inr (None, None, [])) ∧
   Forall (λ ev, is_average_line ev = false) (loop_lines fs_barren ["runs"; "lost"])).
Proof.
  split.
  - apply (proj1 no_valid_results_reported fs_barren "runs" ["C"; "E"]).
    + vm_compute. reflexivity.
    + vm_compute. reflexivity.
  - apply (proj2 no_valid_results_reported fs_barren ["runs"; "lost"]).
    + repeat constructor.
    + vm_compute. reflexivity.
Defined.

(** ** Skipped folders *)

Lemma skipped_folder sc fs root_directory folder_name w :
  isdir fs (Path.join root_directory folder_name) = true →
  skipped fs (Path.join root_directory folder_name) w →
  folder_output sc fs root_directory folder_name = [w] ∧
  folder_result fs root_directory folder_name = None.
Proof.
  intros Hdir Hskip. unfold folder_output, folder_result. rewrite Hdir.
  destruct Hskip as [Hnone|csv e Hsel Hfile|csv df Hsel Hfile Hcols].
  - now rewrite Hnone.
  - rewrite Hsel.
    destruct (process_csv_file_cases fs csv) as (out & r & -> & H).
    rewrite Hfile in H. destruct H as [-> ->]. auto.
  - rewrite Hsel.
    destruct (process_csv_file_cases fs csv) as (out & r & -> & H).
    rewrite Hfile, Hcols in H. destruct H as [-> ->]. auto.
Qed.

(** C7. A subdirectory with no selectable file, or whose selected file is
    unreadable, unparsable or lacks a required column, makes the loop
    print one warning (naming the file in the last two cases), leaves the
    loop variables as they are and raises nothing; the scan goes on with
    the entries that follow. *)
Theorem unusable_folder_skipped sc (fs : FS) root_directory folder_name w :
  isdir fs (Path.join root_directory folder_name) = true →
  skipped fs (Path.join root_directory folder_name) w →
  (∀ s, scan_folder sc fs root_directory folder_name s = ([w], inr s)) ∧
  (∀ before after s,
     scan sc fs root_directory (before ++ folder_name :: after) s =
     (s1 ← scan sc fs root_directory before s;
      _ ← print w;
      scan sc fs root_directory after s1)).
Proof.
  intros Hdir Hskip.
  destruct (skipped_folder sc fs root_directory folder_name w Hdir Hskip) as [Hout Hres].
  assert (∀ s, scan_folder sc fs root_directory folder_name s = ([w], inr s)) as Hstep
      by (intros s; now rewrite scan_folder_spec, Hout, Hres).
  split; [exact Hstep|].
  intros before after s. unfold scan. rewrite for_each_app.
  destruct (for_each before _ s) as [out [r|s1]]; [reflexivity|].
  rewrite !bind_inr. cbn [for_each]. rewrite Hstep, bind_inr, bind_print.
  reflexivity.
Qed.

Lemma unusable_folder_skipped_witness :
  (∀ s, scan_folder Single fs_runs "runs" "D" s
        = ([PWarnColumns "runs/D/metrics.csv"], inr s)) ∧
  (∀ before after s,
     scan Single fs_runs "runs" (before ++ "D" :: after) s =
     (s1 ← scan Single fs_runs "runs" before s;
      _ ← print (PWarnColumns "runs/D/metrics.csv");
      scan Single fs_runs "runs" after s1)).
Proof.
  apply (unusable_folder_skipped Single fs_runs "runs" "D").
  - vm_compute. reflexivity.
  - apply (skipped_columns fs_runs "runs/D" "runs/D/metrics.csv"
             {| df_columns := ["epoch"; "val_auroc"]; df_nrows := 1;
                df_at := λ _ _, F64.dec 1 2 |}).
    + vm_compute. reflexivity.
    + vm_compute. reflexivity.
    + reflexivity.
Defined.

(** The three kinds of skipped folder on a concrete root: the scan warns
    about [C], [D] and [E] and keeps [A], [B] and [F]. *)
Example scan_skips :
  List.filter is_warning (output (Eval.analyze_directory fs_runs "runs"))
  = [PWarnNoCsv "runs/C"; PWarnColumns "runs/D/metrics.csv";
     PErrProcessing "runs/E/metrics.csv" ParserError].
Proof. vm_compute. reflexivity. Qed.

(** ** The accumulators of the multi-root loop *)

Lemma analyze_directory_file fs directory :
  is_file fs directory = true →
  EvalMult.analyze_directory fs directory = ([], inl (Exc NotADirectoryError)).
Proof.
  unfold is_file, EvalMult.analyze_directory, exists_. rewrite listdir_at.
  now destruct (fs !! directory) as [[p|names]|].
Qed.

Lemma accumulate_aligned fs s directory :
  length (EvalMult.all_best_val_aurocs s) = length (EvalMult.all_best_test_aurocs s) →
  length (EvalMult.all_best_val_aurocs (accumulate fs s directory))
    = length (EvalMult.all_best_test_aurocs (accumulate fs s directory)) ∧
  zip (EvalMult.all_best_val_aurocs (accumulate fs s directory))
      (EvalMult.all_best_test_aurocs (accumulate fs s directory))
    = zip (EvalMult.all_best_val_aurocs s) (EvalMult.all_best_test_aurocs s)
      ++ match root_best fs directory with Some p => [p] | None => [] end.
Proof.
  intros Hlen. unfold accumulate, root_best.
  destruct (outcome (EvalMult.analyze_directory fs directory)) as [e|[[[v|] [t|]] rs]];
    cbn [EvalMult.all_best_val_aurocs EvalMult.all_best_test_aurocs];
    rewrite ?app_nil_r; try (split; [assumption|reflexivity]).
  split.
  - rewrite !length_app. cbn. lia.
  - now rewrite zip_with_app.
Qed.

(** C9. Each round of the loop of [analyze_multiple_directories] that
    returns keeps the two accumulated lists of equal length and appends
    to both, or to neither, the pair of the same root; after the loop the
    i-th [val_auroc] and the i-th [test_auroc] are the best pair of one
    root of the list, so the statistics are taken over pairs. *)
Theorem accumulators_aligned (fs : FS) :
  (∀ n id s out s',
     EvalMult.analyze_one fs n id s = (out, inr s') →
     length (EvalMult.all_best_val_aurocs s) = length (EvalMult.all_best_test_aurocs s) →
     length (EvalMult.all_best_val_aurocs s') = length (EvalMult.all_best_test_aurocs s') ∧
     zip (EvalMult.all_best_val_aurocs s') (EvalMult.all_best_test_aurocs s')
       = zip (EvalMult.all_best_val_aurocs s) (EvalMult.all_best_test_aurocs s)
         ++ match root_best fs id.2 with Some p => [p] | None => [] end) ∧
  (∀ directory_list,
     Forall (λ d, is_file fs d = false) directory_list →
     ∃ out s,
       for_each (EvalMult.enumerate 1 directory_list)
         (EvalMult.analyze_one fs (length directory_list)) EvalMult.multi_init
         = (out, inr s) ∧
       length (EvalMult.all_best_val_aurocs s) = length (EvalMult.all_best_test_aurocs s) ∧
       zip (EvalMult.all_best_val_aurocs s) (EvalMult.all_best_test_aurocs s)
         = valid_bests fs directory_list ∧
       (∀ i v t,
          EvalMult.all_best_val_aurocs s !! i = Some v →
          EvalMult.all_best_test_aurocs s !! i = Some t →
          ∃ d, d ∈ directory_list ∧ root_best fs d = Some (v, t))).
Proof.
  split.
  - intros n id s out s' Hone Hlen.
    destruct (is_file fs id.2) eqn:Hf.
    + exfalso. destruct id as [i d]. cbn [snd] in Hf.
      unfold EvalMult.analyze_one in Hone. revert Hone. mstep.
      rewrite (analyze_directory_file _ _ Hf). discriminate.
    + rewrite (analyze_one_spec _ _ _ _ Hf) in Hone.
      injection Hone as _ <-. now apply accumulate_aligned.
  - intros dirs Hf.
    rewrite analyze_loop_spec by now rewrite snd_enumerate.
    rewrite snd_enumerate. eexists _, _. split; [reflexivity|].
    destruct (accumulate_fold fs dirs EvalMult.multi_init) as (Hv & Ht & _).
    cbn [EvalMult.multi_init EvalMult.all_best_val_aurocs
         EvalMult.all_best_test_aurocs app] in Hv, Ht.
    rewrite Hv, Ht. split; [now rewrite !length_fmap|].
    split; [apply zip_fst_snd|].
    intros i v t Hiv Hit. rewrite list_lookup_fmap in Hiv, Hit.
    destruct (valid_bests fs dirs !! i) as [[v' t']|] eqn:Hp; [|discriminate].
    cbn in Hiv, Hit. injection Hiv as <-. injection Hit as <-.
    apply list_elem_of_lookup_2 in Hp. now apply list_elem_of_omap in Hp.
Qed.

Lemma accumulators_aligned_witness :
  ∃ out s,
    for_each (EvalMult.enumerate 1 ["r1"; "lost"; "r2"])
      (EvalMult.analyze_one fs_two_roots 3) EvalMult.multi_init = (out, inr s) ∧
    length (EvalMult.all_best_val_aurocs s) = length (EvalMult.all_best_test_aurocs s) ∧
    zip (EvalMult.all_best_val_aurocs s) (EvalMult.all_best_test_aurocs s)
      = valid_bests fs_two_roots ["r1"; "lost"; "r2"] ∧
    (∀ i v t,
       EvalMult.all_best_val_aurocs s !! i = Some v →
       EvalMult.all_best_test_aurocs s !! i = Some t →
       ∃ d, d ∈ ["r1"; "lost"; "r2"] ∧ root_best fs_two_roots d = Some (v, t)).
Proof.
  apply (proj2 (accumulators_aligned fs_two_roots) ["r1"; "lost"; "r2"]).
  repeat constructor.
Defined.

(** ** The averages *)

(** C4, as stated, fails on its own example: with the bests (0.8, 0.7)
    and (0.9, 0.6) the script returns the binary64 numbers next above
    0.85 and next below 0.65. *)
Lemma analyze_multiple_directories_example_inexact :
  valid_bests fs_two_roots ["r1"; "r2"]
    = [(F64.dec 8 10, F64.dec 7 10); (F64.dec 9 10, F64.dec 6 10)] ∧
  (∃ rs, outcome (EvalMult.analyze_multiple_directories fs_two_roots ["r1"; "r2"])
         = inr (Some (F64.succ (F64.dec 85 100)), Some (F64.pred (F64.dec 65 100)), rs)) ∧
  ¬ (∀ (fs : FS) directory_list,
       valid_bests fs directory_list
         = [(F64.dec 8 10, F64.dec 7 10); (F64.dec 9 10, F64.dec 6 10)] →
       ∃ rs, outcome (EvalMult.analyze_multiple_directories fs directory_list)
             = inr (Some (F64.dec 85 100), Some (F64.dec 65 100), rs)).
Proof.
  split; [vm_compute; reflexivity|]. split.
  - eexists. vm_compute. reflexivity.
  - intros H. destruct (H fs_two_roots ["r1"; "r2"]) as [rs Hrs].
    + vm_compute. reflexivity.
    + vm_compute in Hrs. discriminate.
Qed.

(** C4, amended. When the roots, none of them a regular file, have at
    least one valid best, [analyze_multiple_directories] returns and
    prints the binary64 quotients of the left-to-right sums of the bests
    by their count, and prints the minimum and maximum of each list; the
    extremes of [val_auroc] are elements that bound the list, and so are
    those of [test_auroc] when it holds no NaN.  For the bests (0.8, 0.7)
    and (0.9, 0.6) the averages are the neighbours of 0.85 and 0.65, not
    these numbers. *)
Theorem analyze_multiple_directories_means (fs : FS) directory_list p pairs :
  Forall (λ d, is_file fs d = false) directory_list →
  valid_bests fs directory_list = p :: pairs →
  let vals := (p :: pairs).*1 in
  let tests := (p :: pairs).*2 in
  let avg_val := F64.div (fold_left F64.add vals F64.zero) (F64.of_nat (length vals)) in
  let avg_test := F64.div (fold_left F64.add tests F64.zero) (F64.of_nat (length tests)) in
  (∃ before after rs,
     EvalMult.analyze_multiple_directories fs directory_list =
       (before ++
        [PNumProcessed (length directory_list); PNumValid (length (p :: pairs));
         PAvgVal avg_val; PAvgTest avg_test; PDetailed;
         PValMinMax (fmin vals) (fmax vals); PTestMinMax (fmin tests) (fmax tests)]
        ++ after,
        inr (Some avg_val, Some avg_test, rs))) ∧
  (fmin vals ∈ vals ∧ fmax vals ∈ vals ∧
   Forall (λ v, F64.leb (fmin vals) v = true ∧ F64.leb v (fmax vals) = true) vals) ∧
  (Forall (λ t, F64.is_nan t = false) tests →
   fmin tests ∈ tests ∧ fmax tests ∈ tests ∧
   Forall (λ t, F64.leb (fmin tests) t = true ∧ F64.leb t (fmax tests) = true) tests) ∧
  (p :: pairs = [(F64.dec 8 10, F64.dec 7 10); (F64.dec 9 10, F64.dec 6 10)] →
   avg_val = F64.succ (F64.dec 85 100) ∧ avg_test = F64.pred (F64.dec 65 100) ∧
   avg_val ≠ F64.dec 85 100 ∧ avg_test ≠ F64.dec 65 100).
Proof.
  intros Hf Hp vals tests avg_val avg_test. split; [|split; [|split]].
  - rewrite (analyze_multiple_directories_spec _ _ Hf), Hp.
    exists (loop_lines fs directory_list ++ [PRule 60; POverallAllTitle; PRule 60]),
      (PIndividual :: individual_lines directory_list (p :: pairs)).
    eexists. f_equal.
    unfold statistics_lines. rewrite <- !app_assoc. reflexivity.
  - apply fmin_fmax_bounds; [discriminate|].
    unfold vals. rewrite <- Hp. apply valid_bests_no_nan.
  - intros Hnan. apply fmin_fmax_bounds; [discriminate|assumption].
  - intros E. unfold avg_val, avg_test, vals, tests. rewrite E.
    vm_compute. repeat split; discriminate.
Qed.

Lemma analyze_multiple_directories_means_witness :
  let vals := [F64.dec 8 10; F64.dec 9 10] in
  let tests := [F64.dec 7 10; F64.dec 6 10] in
  let avg_val := F64.div (fold_left F64.add vals F64.zero) (F64.of_nat 2) in
  let avg_test := F64.div (fold_left F64.add tests F64.zero) (F64.of_nat 2) in
  (∃ before after rs,
     EvalMult.analyze_multiple_directories fs_two_roots ["r1"; "lost"; "r2"] =
       (before ++
        [PNumProcessed 3; PNumValid 2;
         PAvgVal avg_val; PAvgTest avg_test; PDetailed;
         PValMinMax (fmin vals) (fmax vals); PTestMinMax (fmin tests) (fmax tests)]
        ++ after,
        inr (Some avg_val, Some avg_test, rs))) ∧
  (avg_val = F64.succ (F64.dec 85 100) ∧ avg_test = F64.pred (F64.dec 65 100) ∧
   avg_val ≠ F64.dec 85 100 ∧ avg_test ≠ F64.dec 65 100).
Proof.
  pose proof (analyze_multiple_directories_means fs_two_roots ["r1"; "lost"; "r2"]
                (F64.dec 8 10, F64.dec 7 10) [(F64.dec 9 10, F64.dec 6 10)]) as H.
  destruct H as (H1 & _ & _ & H4).
  - repeat constructor.
  - vm_compute. reflexivity.
  - split; [exact H1|]. apply H4. reflexivity.
Defined.

(** ** Missing roots *)

Lemma keep_existing_step fs d valid :
  EvalMult.keep_existing fs d valid =
  (if exists_ fs d then [] else [PWarnSkip d],
   inr (if exists_ fs d then valid ++ [d] else valid)).
Proof. unfold EvalMult.keep_existing. now destruct (exists_ fs d). Qed.

Lemma keep_existing_loop fs dirs : ∀ valid,
  for_each dirs (EvalMult.keep_existing fs) valid
  = (skip_warnings fs dirs, inr (valid ++ existing fs dirs)).
Proof.
  unfold skip_warnings, existing.
  induction dirs as [|d dirs IH]; intros valid.
  - cbn. now rewrite app_nil_r.
  - cbn [for_each]. rewrite keep_existing_step, bind_inr, IH, !filter_cons.
    cbn [fst snd].
    destruct (exists_ fs d) eqn:E.
    + destruct (decide (true = false)) as [|]; [congruence|].
      destruct (decide (true = true)) as [|]; [|congruence].
      now rewrite <- app_assoc.
    + destruct (decide (false = false)) as [|]; [|congruence].
      destruct (decide (false = true)) as [|]; [congruence|].
      reflexivity.
Qed.

(** [main] of [eval_mult.py] with at least one root argument: it warns
    about the missing roots and goes on with the existing ones. *)
Lemma EvalMult_main_spec fs script d dirs :
  EvalMult.main fs (script :: d :: dirs) =
  (skip_warnings fs (d :: dirs) ++ (EvalMult.run_valid fs (existing fs (d :: dirs))).1,
   (EvalMult.run_valid fs (existing fs (d :: dirs))).2).
Proof.
  unfold EvalMult.main. cbn [length Nat.ltb Nat.leb tail].
  now rewrite keep_existing_loop, bind_inr.
Qed.

Lemma skip_warnings_app fs l1 l2 :
  skip_warnings fs (l1 ++ l2) = skip_warnings fs l1 ++ skip_warnings fs l2.
Proof. unfold skip_warnings. now rewrite filter_app, fmap_app. Qed.

Lemma existing_app fs l1 l2 : existing fs (l1 ++ l2) = existing fs l1 ++ existing fs l2.
Proof. unfold existing. now rewrite filter_app. Qed.

Lemma skip_warnings_missing fs d :
  exists_ fs d = false → skip_warnings fs [d] = [PWarnSkip d].
Proof.
  intros H. unfold skip_warnings. rewrite filter_cons.
  destruct (decide _); [reflexivity|congruence].
Qed.

Lemma existing_missing fs d : exists_ fs d = false → existing fs [d] = [].
Proof.
  intros H. unfold existing. rewrite filter_cons.
  destruct (decide _); [congruence|reflexivity].
Qed.

(** C6, as stated, fails for the single-root script: on a missing root
    [eval.py] prints the error and ends by returning, it does not exit. *)
Lemma Eval_main_missing_root_returns :
  Eval.main ∅ ["eval.py"; "lost"] = ([PErrNoDirectory "lost"], inr tt) ∧
  ¬ (∀ (fs : FS) script root_directory,
       exists_ fs root_directory = false →
       ∃ out code, Eval.main fs [script; root_directory] = (out, inl (SystemExit code))).
Proof.
  split; [reflexivity|].
  intros H. destruct (H ∅ "eval.py" "lost") as (out & code & Hmain);
    [reflexivity|discriminate].
Qed.

(** C6, amended. For a root that does not exist: [analyze_directory]
    prints the error and returns at once, scanning nothing; [eval.py]
    then ends by returning; [eval_mult.py] warns about the root and goes
    on exactly as with the other roots alone, and exits with status 1
    when no root is left, as with a missing sole root. *)
Theorem missing_root_handling (fs : FS) root_directory :
  exists_ fs root_directory = false →
  Eval.analyze_directory fs root_directory
    = ([PErrNoDirectory root_directory], inr None) ∧
  EvalMult.analyze_directory fs root_directory
    = ([PErrNoDirectory root_directory], inr (None, None, [])) ∧
  (∀ script,
     Eval.main fs [script; root_directory] = ([PErrNoDirectory root_directory], inr tt)) ∧
  (∀ script before after,
     EvalMult.main fs (script :: before ++ root_directory :: after) =
     (skip_warnings fs before ++ [PWarnSkip root_directory] ++ skip_warnings fs after ++
      (EvalMult.run_valid fs (existing fs (before ++ after))).1,
      (EvalMult.run_valid fs (existing fs (before ++ after))).2)) ∧
  (∀ script d dirs,
     EvalMult.main fs (script :: d :: dirs) =
     (skip_warnings fs (d :: dirs) ++ (EvalMult.run_valid fs (existing fs (d :: dirs))).1,
      (EvalMult.run_valid fs (existing fs (d :: dirs))).2)) ∧
  (∀ script,
     EvalMult.main fs [script; root_directory]
       = ([PWarnSkip root_directory; PErrNoValidDirs], inl (SystemExit 1))).
Proof.
  intros Hmiss. repeat split.
  - now apply Eval_analyze_directory_absent.
  - now apply EvalMult_analyze_directory_absent.
  - intros script. unfold Eval.main.
    now rewrite Eval_analyze_directory_absent.
  - intros script before after.
    assert (∃ d dirs, before ++ root_directory :: after = d :: dirs) as (d & dirs & E)
        by (destruct before; cbn; eauto).
    rewrite E, EvalMult_main_spec, <- E.
    change (root_directory :: after) with ([root_directory] ++ after).
    rewrite !skip_warnings_app, !existing_app.
    rewrite (skip_warnings_missing _ _ Hmiss), (existing_missing _ _ Hmiss).
    cbn [app]. now rewrite <- !app_assoc.
  - intros script d dirs. apply EvalMult_main_spec.
  - intros script. rewrite EvalMult_main_spec.
    rewrite (skip_warnings_missing _ _ Hmiss), (existing_missing _ _ Hmiss).
    reflexivity.
Qed.

Lemma missing_root_handling_witness :
  Eval.main fs_two_roots ["eval.py"; "lost"] = ([PErrNoDirectory "lost"], inr tt) ∧
  EvalMult.main fs_two_roots ["eval_mult.py"; "r1"; "lost"; "r2"] =
    ([PWarnSkip "lost"] ++ (EvalMult.run_valid fs_two_roots ["r1"; "r2"]).1,
     (EvalMult.run_valid fs_two_roots ["r1"; "r2"]).2) ∧
  EvalMult.main fs_two_roots ["eval_mult.py"; "r1"; "r2"] =
    ((EvalMult.run_valid fs_two_roots ["r1"; "r2"]).1,
     (EvalMult.run_valid fs_two_roots ["r1"; "r2"]).2) ∧
  EvalMult.main fs_two_roots ["eval_mult.py"; "lost"]
    = ([PWarnSkip "lost"; PErrNoValidDirs], inl (SystemExit 1)).
Proof.
  destruct (missing_root_handling fs_two_roots "lost")
    as (_ & _ & H3 & H4 & H5 & H6); [vm_compute; reflexivity|].
  split; [apply H3|]. split; [exact (H4 "eval_mult.py" ["r1"] ["r2"])|].
  split; [exact (H5 "eval_mult.py" "r1" ["r2"])|apply H6].
Defined.

(** * Further properties of the code *)

(** ** The extractor on arbitrary tables *)

Lemma ltb_nan_r x : F64.ltb x F64.nan = false.
Proof.
  destruct (F64.ltb x F64.nan) eqn:E; [|reflexivity].
  apply F64Facts.ltb_not_nan in E as [_ E]. discriminate.
Qed.

Lemma leb_nan_r x : F64.leb x F64.nan = false.
Proof.
  destruct (F64.leb x F64.nan) eqn:E; [|reflexivity].
  apply F64Facts.leb_not_nan in E as [_ E]. discriminate.
Qed.

Lemma is_nan_eq x : F64.is_nan x = true → x = F64.nan.
Proof. now destruct x. Qed.

Lemma fill_nan_not_nan x : F64.is_nan (fill_nan x) = false.
Proof. unfold fill_nan. now destruct (F64.is_nan x) eqn:E. Qed.

(** [idxmax] on a column with a number above minus infinity: the
    position returned holds a number that no cell exceeds, and every cell
    before it is smaller or NaN. *)
Lemma idxmax_skipna (s : list float) :
  Exists (λ x, F64.gtb x F64.neg_inf = true) s →
  ∃ i m, idxmax s = ([], inr i) ∧ s !! i = Some m ∧ F64.is_nan m = false ∧
    (∀ j x, s !! j = Some x → F64.ltb m x = false) ∧
    (∀ j x, j < i → s !! j = Some x → F64.leb m x = false).
Proof.
  intros Hex. unfold idxmax.
  assert (forallb F64.is_nan s = false) as Hsome.
  { apply Exists_exists in Hex as (x & Hin & Hx).
    destruct (forallb F64.is_nan s) eqn:E; [|reflexivity].
    rewrite forallb_forall in E. apply list_elem_of_In in Hin.
    specialize (E x Hin). apply F64Facts.ltb_not_nan in Hx as [_ Hx]. congruence. }
  rewrite Hsome.
  destruct s as [|x0 xs]; [inversion Hex|]. cbn [map].
  destruct (argmax_from_spec (map fill_nan xs) [fill_nan x0] 0 (fill_nan x0))
    as (m & Hm & Hle & Hlt).
  - change ([fill_nan x0] ++ map fill_nan xs) with (map fill_nan (x0 :: xs)).
    apply Forall_fmap, Forall_forall. intros y _. apply fill_nan_not_nan.
  - reflexivity.
  - intros [|j] y Hj; cbn in Hj; [|discriminate].
    injection Hj as <-. apply F64Facts.leb_refl, fill_nan_not_nan.
  - intros j y Hj. lia.
  - change ([fill_nan x0] ++ map fill_nan xs) with (fill_nan <$> (x0 :: xs)) in *.
    cbn [length] in *.
    set (i := argmax_from 0 (fill_nan x0) 1 (map fill_nan xs)) in *.
    rewrite list_lookup_fmap in Hm.
    destruct ((x0 :: xs) !! i) as [y|] eqn:Hy; [|discriminate].
    cbn in Hm. injection Hm as Hm.
    (* the largest filled value is above minus infinity, so it is a cell *)
    assert (F64.gtb m F64.neg_inf = true) as Hgt.
    { apply Exists_exists in Hex as (x & Hin & Hx).
      apply list_elem_of_lookup in Hin as [j Hj].
      assert (F64.leb (fill_nan x) m = true) as Hxm
          by (apply (Hle j); now rewrite list_lookup_fmap, Hj).
      assert (fill_nan x = x) as Hfx.
      { unfold fill_nan. apply F64Facts.ltb_not_nan in Hx as [_ Hx]. now rewrite Hx. }
      rewrite Hfx in Hxm. exact (F64Facts.ltb_leb_trans _ _ _ Hx Hxm). }
    assert (F64.is_nan y = false) as Hyn.
    { destruct (F64.is_nan y) eqn:E; [|reflexivity].
      unfold fill_nan in Hm. rewrite E in Hm. subst m.
      unfold F64.gtb in Hgt. change (F64.ltb F64.neg_inf F64.neg_inf = true) in Hgt.
      now rewrite F64Facts.ltb_irrefl in Hgt. }
    assert (m = y) as -> by (unfold fill_nan in Hm; now rewrite Hyn in Hm).
    exists i, y. repeat split; try assumption; try reflexivity.
    + intros j x Hj.
      assert (F64.leb (fill_nan x) y = true) as Hxm
          by (apply (Hle j); now rewrite list_lookup_fmap, Hj).
      destruct (F64.is_nan x) eqn:E.
      * apply is_nan_eq in E. subst x. apply ltb_nan_r.
      * unfold fill_nan in Hxm. rewrite E in Hxm.
        destruct (F64.ltb y x) eqn:L; [|reflexivity].
        apply F64Facts.leb_false_of_ltb in L. congruence.
    + intros j x Hji Hj.
      assert (F64.ltb (fill_nan x) y = true) as Hxm
          by (apply (Hlt j); [assumption|]; now rewrite list_lookup_fmap, Hj).
      destruct (F64.is_nan x) eqn:E.
      * apply is_nan_eq in E. subst x. apply leb_nan_r.
      * unfold fill_nan in Hxm. rewrite E in Hxm.
        now apply F64Facts.leb_false_of_ltb.
Qed.

(** The extractor on a table with both columns whose [val_auroc] column
    is not NaN only: the pair of the row [idxmax] designates. *)
Lemma process_csv_file_row fs csv_path df :
  fs !! csv_path = Some (File (inr df)) →
  has_column df "val_auroc" = true → has_column df "test_auroc" = true →
  ∀ i, idxmax (column df "val_auroc") = ([], inr i) → i < df_nrows df →
  process_csv_file fs csv_path
    = ([], inr (Some (df_at df i "val_auroc"), Some (df_at df i "test_auroc"))).
Proof.
  intros Hfile Hv Ht i Hi Hlt.
  unfold process_csv_file. rewrite read_csv_at, Hfile. mstep.
  rewrite Hv, Ht. cbn [negb orb]. rewrite Hi. mstep.
  unfold loc. apply Nat.ltb_lt in Hlt. rewrite Hlt, Hv, Ht. cbn [andb].
  mstep. reflexivity.
Qed.

(** X1. Whenever [process_csv_file] returns numbers, it has printed
    nothing and the two numbers are the [val_auroc] and the [test_auroc]
    of one and the same row of the table at the path. *)
Theorem process_csv_file_same_row (fs : FS) csv_path out v t :
  process_csv_file fs csv_path = (out, inr (Some v, Some t)) →
  out = [] ∧
  ∃ df i, fs !! csv_path = Some (File (inr df)) ∧ i < df_nrows df ∧
    v = df_at df i "val_auroc" ∧ t = df_at df i "test_auroc".
Proof.
  intros Hrun.
  destruct (process_csv_file_cases fs csv_path) as (out' & r & Hr & Hcase).
  rewrite Hrun in Hr. injection Hr as <- <-.
  destruct (fs !! csv_path) as [[[e|df]|names]|] eqn:Hfile;
    try (destruct Hcase as [_ [=]]).
  destruct (has_column df "val_auroc") eqn:Hv;
    [destruct (has_column df "test_auroc") eqn:Ht|];
    cbn [andb] in Hcase; try (destruct Hcase as [_ [=]]).
  pose proof (idxmax_cases (column df "val_auroc")) as Hi.
  destruct (forallb F64.is_nan (column df "val_auroc"));
    [destruct Hcase as [_ [=]]|].
  destruct Hi as (i & Hi & Hlt). rewrite column_length in Hlt.
  rewrite (process_csv_file_row _ _ _ Hfile Hv Ht i Hi Hlt) in Hrun.
  injection Hrun as <- <- <-. split; [reflexivity|]. eauto 6.
Qed.

Lemma process_csv_file_same_row_witness :
  ∃ df i, one_file "run/metrics.csv" tie_table !! "run/metrics.csv"
            = Some (File (inr df)) ∧ i < df_nrows df ∧
    F64.dec 9 10 = df_at df i "val_auroc" ∧ F64.dec 5 10 = df_at df i "test_auroc".
Proof.
  apply (process_csv_file_same_row (one_file "run/metrics.csv" tie_table)
           "run/metrics.csv" [] (F64.dec 9 10) (F64.dec 5 10)).
  vm_compute. reflexivity.
Defined.

(** X2. NaN cells of [val_auroc] are skipped: when some cell is a number
    above minus infinity, the extractor returns the pair of a row whose
    [val_auroc] is a number that no cell exceeds, every earlier cell
    being smaller or NaN. *)
Theorem process_csv_file_skips_nan (fs : FS) csv_path df :
  fs !! csv_path = Some (File (inr df)) →
  has_column df "val_auroc" = true → has_column df "test_auroc" = true →
  (∃ j, j < df_nrows df ∧ F64.gtb (df_at df j "val_auroc") F64.neg_inf = true) →
  ∃ i, i < df_nrows df ∧
    process_csv_file fs csv_path
      = ([], inr (Some (df_at df i "val_auroc"), Some (df_at df i "test_auroc"))) ∧
    F64.is_nan (df_at df i "val_auroc") = false ∧
    (∀ j, j < df_nrows df →
          F64.ltb (df_at df i "val_auroc") (df_at df j "val_auroc") = false) ∧
    (∀ j, j < i →
          F64.leb (df_at df i "val_auroc") (df_at df j "val_auroc") = false).
Proof.
  intros Hfile Hv Ht (j0 & Hj0 & Hgt).
  destruct (idxmax_skipna (column df "val_auroc")) as (i & m & Hi & Hm & Hn & Hmax & Hfirst).
  { apply Exists_exists. exists (df_at df j0 "val_auroc"). split; [|exact Hgt].
    apply list_elem_of_lookup. exists j0. now apply column_lookup. }
  assert (i < df_nrows df) as Hin
      by (apply lookup_lt_Some in Hm; now rewrite column_length in Hm).
  rewrite column_lookup in Hm by assumption. injection Hm as <-.
  exists i. repeat split; try assumption.
  - now apply process_csv_file_row.
  - intros j Hj. apply (Hmax j). now apply column_lookup.
  - intros j Hj. apply (Hfirst j); [assumption|]. apply column_lookup. lia.
Qed.

Lemma process_csv_file_skips_nan_witness :
  ∃ i, i < df_nrows nan_table ∧
    process_csv_file (one_file "run/metrics.csv" nan_table) "run/metrics.csv"
      = ([], inr (Some (df_at nan_table i "val_auroc"),
                  Some (df_at nan_table i "test_auroc"))) ∧
    F64.is_nan (df_at nan_table i "val_auroc") = false ∧
    (∀ j, j < df_nrows nan_table →
          F64.ltb (df_at nan_table i "val_auroc") (df_at nan_table j "val_auroc") = false) ∧
    (∀ j, j < i →
          F64.leb (df_at nan_table i "val_auroc") (df_at nan_table j "val_auroc") = false).
Proof.
  apply (process_csv_file_skips_nan (one_file "run/metrics.csv" nan_table)
           "run/metrics.csv" nan_table).
  - vm_compute. reflexivity.
  - reflexivity.
  - reflexivity.
  - exists 1. split; [cbn; lia|vm_compute; reflexivity].
Defined.

(** With NaN in rows 0 and 2, the extractor returns row 3, the first of
    the two rows holding 0.9. *)
Example process_csv_file_nan_table :
  process_csv_file (one_file "run/metrics.csv" nan_table) "run/metrics.csv"
    = ([], inr (Some (F64.dec 9 10), Some (F64.dec 5 10))).
Proof. vm_compute. reflexivity. Qed.

(** ** The scan of a root, continued *)

Lemma folder_not_directory sc fs root_directory folder_name :
  isdir fs (Path.join root_directory folder_name) = false →
  folder_output sc fs root_directory folder_name = [] ∧
  folder_result fs root_directory folder_name = None.
Proof. intros H. unfold folder_output, folder_result. now rewrite H. Qed.

(** X3. Entries of the root that are not directories are passed over
    without a line: the scan of a listing is the scan of its
    directories, prints and loop variables alike. *)
Theorem scan_ignores_non_directories sc (fs : FS) root_directory names s :
  scan sc fs root_directory names s =
  scan sc fs root_directory
    (filter (λ n, isdir fs (Path.join root_directory n) = true) names) s.
Proof.
  rewrite !scan_spec. f_equal.
  - induction names as [|n names IH]; [reflexivity|].
    rewrite filter_cons. cbn [flat_map].
    destruct (decide (isdir fs (Path.join root_directory n) = true)) as [Hd|Hd].
    + cbn [flat_map]. now rewrite IH.
    + apply not_true_is_false in Hd.
      now rewrite (proj1 (folder_not_directory sc fs _ _ Hd)), IH.
  - f_equal. f_equal.
    induction names as [|n names IH]; [reflexivity|].
    rewrite filter_cons, omap_cons_match.
    destruct (decide (isdir fs (Path.join root_directory n) = true)) as [Hd|Hd].
    + now rewrite omap_cons_match, IH.
    + apply not_true_is_false in Hd.
      now rewrite (proj2 (folder_not_directory sc fs _ _ Hd)), IH.
Qed.

Lemma analyze_directory_overall_best_witness :
  ∃ i r, valid_results fs_runs "runs" !! i = Some r ∧
    Forall (λ r', F64.gtb (val_auroc r') (val_auroc r) = false)
      (valid_results fs_runs "runs") ∧
    (∀ j r', j < i → valid_results fs_runs "runs" !! j = Some r' →
             F64.leb (val_auroc r) (val_auroc r') = false) ∧
    Eval.analyze_directory fs_runs "runs" =
      (scan_output Single fs_runs "runs" ++
       [PRule 50; POverallTitle; PRule 50;
        POverallBestVal (val_auroc r); POverallCorrTest (test_auroc r);
        PFoundInFolder (Some (folder r)); PFromFile (Some (file r))],
       inr (Some (valid_results fs_runs "runs"))) ∧
    EvalMult.analyze_directory fs_runs "runs" =
      (scan_output Multi fs_runs "runs",
       inr (Some (val_auroc r), Some (test_auroc r), valid_results fs_runs "runs")).
Proof.
  apply (analyze_directory_overall_best fs_runs "runs"
           ["A"; "B"; "C"; "D"; "E"; "notes.txt"; "F"]).
  - vm_compute. reflexivity.
  - apply Exists_cons_hd. vm_compute. reflexivity.
Defined.

(** *** Paths of the selected files *)

Lemma first_without_info_Some l p :
  first_without_info l = Some p → p ∈ l ∧ is_info p = false.
Proof.
  induction l as [|q l IH]; cbn [first_without_info]; [discriminate|].
  fold (is_info q). destruct (is_info q) eqn:E; cbn [negb].
  - intros H. destruct (IH H). split; [now apply list_elem_of_further|assumption].
  - intros [= <-]. split; [apply list_elem_of_here|assumption].
Qed.

(** A candidate for a directory whose path is free of pattern
    characters, is not empty and does not end in a separator: an entry of
    the directory that matches, joined to the directory. *)
Lemma glob_csv_elem fs directory p :
  Path.has_nul directory = false → Glob.has_magic directory = false →
  directory ≠ "" → Path.endswith "/" directory = false →
  p ∈ glob_csv fs directory →
  ∃ name, name ∈ listing fs directory ∧ Path.matches_csv name = true ∧
    p = Path.join directory name.
Proof.
  intros Hnul Hmagic Hne Hend.
  rewrite glob_csv_listing by assumption.
  destruct (glob_dirname_plain directory Hne Hend) as [-> ->]. intros H.
  apply list_elem_of_fmap in H as (name & -> & Hin).
  apply list_elem_of_filter in Hin as [Hm Hin]. eauto.
Qed.

Lemma folder_result_Some fs root_directory folder_name r :
  folder_result fs root_directory folder_name = Some r →
  folder r = folder_name ∧
  isdir fs (Path.join root_directory folder_name) = true ∧
  ∃ csv_file,
    first_without_info (glob_csv fs (Path.join root_directory folder_name)) = Some csv_file ∧
    file r = Path.basename csv_file.
Proof.
  unfold folder_result.
  destruct (isdir fs _); [|discriminate].
  destruct (first_without_info _) as [csv|]; [|discriminate].
  destruct (outcome (process_csv_file fs csv)) as [e|[[v|] [t|]]]; try discriminate.
  intros [= <-]. eauto.
Qed.

Lemma omap_sublist {A B} (f : A → option B) (g : B → A) (l : list A) :
  (∀ x y, f x = Some y → g y = x) → sublist (g <$> omap f l) l.
Proof.
  intros Hfg. induction l as [|x l IH]; [constructor|].
  rewrite omap_cons_match. destruct (f x) as [y|] eqn:E.
  - rewrite fmap_cons, (Hfg x y E). now constructor.
  - now constructor.
Qed.

(** What [eval.py]'s [analyze_directory] returns, by what lies at the
    root. *)
Lemma Eval_analyze_directory_cases fs root_directory :
  match fs !! root_directory with
  | Some (Dir _) =>
      Eval.analyze_directory fs root_directory =
      (scan_output Single fs root_directory ++ overall_lines (scanned fs root_directory),
       inr (Some (valid_results fs root_directory)))
  | Some (File _) =>
      Eval.analyze_directory fs root_directory = ([], inl (Exc NotADirectoryError))
  | None =>
      Eval.analyze_directory fs root_directory
        = ([PErrNoDirectory root_directory], inr None)
  end.
Proof.
  destruct (fs !! root_directory) as [[p|names]|] eqn:E.
  - unfold Eval.analyze_directory, exists_. now rewrite listdir_at, E.
  - now apply (Eval_analyze_directory_dir _ _ names).
  - apply Eval_analyze_directory_absent. unfold exists_. now rewrite E.
Qed.

(** X5. The list [analyze_directory] returns keeps the iteration order
    and holds at most one result per entry: the folder names of the
    results are a sublist of the listing of the root.  Each result is for
    an entry that is a directory, and its file name is free of the marker
    whatever the case of its letters.  Where the path of the folder holds
    no pattern character of [glob] and does not end in a separator, and
    the entries of the folder are plain names, the file is an entry of the
    folder that matches [*.csv]. *)
Theorem results_in_listing_order (fs : FS) root_directory out rs :
  Eval.analyze_directory fs root_directory = (out, inr (Some rs)) →
  sublist (folder <$> rs) (listing fs root_directory) ∧
  Forall (λ r,
    let folder_path := Path.join root_directory (folder r) in
    isdir fs folder_path = true ∧
    Path.contains "info" (Path.lower (file r)) = false ∧
    (Glob.has_magic folder_path = false →
     Path.endswith "/" folder_path = false →
     Forall (λ n, Path.has_sep n = false) (listing fs folder_path) →
     file r ∈ listing fs folder_path ∧ Path.matches_csv (file r) = true)) rs.
Proof.
  intros Hrun. pose proof (Eval_analyze_directory_cases fs root_directory) as Hc.
  destruct (fs !! root_directory) as [[p|names]|]; rewrite Hrun in Hc;
    try discriminate.
  injection Hc as _ ->. split.
  - apply omap_sublist. intros n r Hr. now apply folder_result_Some in Hr.
  - apply Forall_forall. intros r Hin.
    apply list_elem_of_omap in Hin as (n & _ & Hr).
    apply folder_result_Some in Hr as (-> & Hdir & csv & Hsel & Hfile).
    apply first_without_info_Some in Hsel as [Hin Hinfo].
    cbn zeta. split; [assumption|]. split.
    + rewrite Hfile. exact Hinfo.
    + intros Hmagic Hend Hplain.
      apply glob_csv_elem in Hin as (name & Hname & Hm & ->);
        [|exact (isdir_no_nul _ _ Hdir)|assumption
         |exact (isdir_not_empty _ _ Hdir)|assumption].
      rewrite Forall_forall in Hplain.
      rewrite Hfile, (basename_join _ _ (Hplain name Hname)). auto.
Qed.

Lemma results_in_listing_order_witness :
  sublist (folder <$> valid_results fs_runs "runs") (listing fs_runs "runs") ∧
  Forall (λ r,
    let folder_path := Path.join "runs" (folder r) in
    isdir fs_runs folder_path = true ∧
    Path.contains "info" (Path.lower (file r)) = false ∧
    (Glob.has_magic folder_path = false →
     Path.endswith "/" folder_path = false →
     Forall (λ n, Path.has_sep n = false) (listing fs_runs folder_path) →
     file r ∈ listing fs_runs folder_path ∧ Path.matches_csv (file r) = true))
    (valid_results fs_runs "runs").
Proof.
  apply (results_in_listing_order fs_runs "runs"
           (output (Eval.analyze_directory fs_runs "runs"))).
  vm_compute. reflexivity.
Defined.

(** *** The two scripts on one root *)

(** The lines of [process_csv_file] are the same in both scripts. *)
Lemma process_csv_file_deeper fs csv_path :
  deeper <$> filter (λ ev, is_blank ev = false) (output (process_csv_file fs csv_path))
  = output (process_csv_file fs csv_path).
Proof.
  destruct (process_csv_file_cases fs csv_path) as (out & r & -> & H).
  unfold output. cbn [fst].
  destruct (fs !! csv_path) as [[[e|df]|names]|];
    [|destruct (_ && _); [destruct (forallb _ _)|]|..];
    destruct H as [-> _]; reflexivity.
Qed.

Lemma folder_output_deeper fs root_directory folder_name :
  folder_output Multi fs root_directory folder_name
  = deeper <$> filter (λ ev, is_blank ev = false)
                 (folder_output Single fs root_directory folder_name).
Proof.
  unfold folder_output. destruct (isdir fs _); [|reflexivity].
  destruct (first_without_info _) as [csv|]; [|reflexivity].
  rewrite filter_app, fmap_app, process_csv_file_deeper. f_equal.
  now destruct (folder_result fs root_directory folder_name).
Qed.

Lemma scan_output_deeper fs root_directory :
  scan_output Multi fs root_directory
  = deeper <$> filter (λ ev, is_blank ev = false) (scan_output Single fs root_directory).
Proof.
  unfold scan_output.
  induction (listing fs root_directory) as [|n names IH]; [reflexivity|].
  cbn [flat_map]. now rewrite filter_app, fmap_app, <- folder_output_deeper, IH.
Qed.

(** X6. On a root that is a directory the two scripts agree up to the
    layout: [eval_mult.py] prints the lines that [eval.py] prints before
    its closing block, without the empty lines and with the four lines of
    each folder two spaces deeper, and it returns the same list of
    results; it returns a best exactly when [eval.py] prints one, with the
    same two numbers. *)
Theorem scripts_agree_on_root (fs : FS) root_directory names :
  fs !! root_directory = Some (Dir names) →
  ∃ lines closing bv bt rs,
    Eval.analyze_directory fs root_directory =
      (lines ++ [PRule 50; POverallTitle; PRule 50] ++ closing, inr (Some rs)) ∧
    EvalMult.analyze_directory fs root_directory =
      (deeper <$> filter (λ ev, is_blank ev = false) lines, inr (bv, bt, rs)) ∧
    match bv, bt with
    | Some v, Some t =>
        ∃ fo fi, closing = [POverallBestVal v; POverallCorrTest t;
                            PFoundInFolder fo; PFromFile fi]
    | None, None => closing = [PNoValidResults]
    | _, _ => False
    end.
Proof.
  intros Hdir.
  rewrite (Eval_analyze_directory_dir _ _ _ Hdir),
    (EvalMult_analyze_directory_dir _ _ _ Hdir), scan_output_deeper.
  unfold overall_lines, summary. rewrite scanned_results.
  destruct (overall_best_test_auroc (scanned fs root_directory)) as [t|].
  - eexists _, _, (Some _), (Some _), _.
    split; [reflexivity|]. split; [reflexivity|].
    eexists _, _. reflexivity.
  - eexists _, _, None, None, _.
    split; [reflexivity|]. split; reflexivity.
Qed.

Lemma scripts_agree_on_root_witness :
  ∃ lines closing bv bt rs,
    Eval.analyze_directory fs_runs "runs" =
      (lines ++ [PRule 50; POverallTitle; PRule 50] ++ closing, inr (Some rs)) ∧
    EvalMult.analyze_directory fs_runs "runs" =
      (deeper <$> filter (λ ev, is_blank ev = false) lines, inr (bv, bt, rs)) ∧
    match bv, bt with
    | Some v, Some t =>
        ∃ fo fi, closing = [POverallBestVal v; POverallCorrTest t;
                            PFoundInFolder fo; PFromFile fi]
    | None, None => closing = [PNoValidResults]
    | _, _ => False
    end.
Proof.
  apply (scripts_agree_on_root fs_runs "runs" ["A"; "B"; "C"; "D"; "E"; "notes.txt"; "F"]).
  vm_compute. reflexivity.
Defined.

(** ** Roots that are regular files *)

Lemma root_lines_no_average fs n id :
  Forall (λ ev, is_average_line ev = false) (root_lines fs n id).
Proof.
  unfold root_lines.
  apply Forall_app. split; [repeat constructor|].
  apply Forall_app. split; [apply analyze_directory_no_average|].
  destruct (root_best fs id.2) as [[v t]|]; repeat constructor.
Qed.

(** The loop over the roots stops at the first root that is a regular
    file. *)
Lemma analyze_loop_file fs n root_directory after : ∀ before k s,
  Forall (λ d, is_file fs d = false) before →
  is_file fs root_directory = true →
  for_each (zip (seq k (length (before ++ root_directory :: after)))
              (before ++ root_directory :: after))
    (EvalMult.analyze_one fs n) s =
  (flat_map (root_lines fs n) (zip (seq k (length before)) before) ++
   [PAnalyzingDir (k + length before) n root_directory; PDashes 40],
   inl (Exc NotADirectoryError)).
Proof.
  induction before as [|d before IH]; intros k s Hbefore Hfile.
  - cbn [app length seq zip zip_with for_each flat_map].
    unfold EvalMult.analyze_one. mstep.
    rewrite (analyze_directory_file _ _ Hfile). cbn [fst snd].
    now rewrite Nat.add_0_r.
  - inversion Hbefore as [|? ? Hd Hrest]; subst.
    cbn [app length seq zip zip_with for_each flat_map].
    rewrite (analyze_one_spec fs n (k, d) s Hd), bind_inr.
    rewrite (IH (S k) _ Hrest Hfile). cbn [fst snd].
    rewrite <- app_assoc.
    replace (S k + length before) with (k + S (length before)) by lia.
    reflexivity.
Qed.

(** [analyze_multiple_directories] stops at a root that is a regular
    file, when the roots before it do not exist, before any average is
    printed. *)
Lemma analyze_multiple_directories_file fs root_directory before after :
  is_file fs root_directory = true →
  Forall (λ d, exists_ fs d = false) before →
  ∃ out,
    EvalMult.analyze_multiple_directories fs (before ++ root_directory :: after)
      = (out, inl (Exc NotADirectoryError)) ∧
    Forall (λ ev, is_average_line ev = false) out.
Proof.
  intros H Hbefore.
  assert (Forall (λ d, is_file fs d = false) before) as Hfiles.
  { eapply Forall_impl; [exact Hbefore|]. intros d. unfold exists_, is_file.
    now destruct (fs !! d). }
  unfold EvalMult.analyze_multiple_directories, EvalMult.enumerate. mstep.
  rewrite (analyze_loop_file _ _ _ _ _ _ _ Hfiles H). cbn [fst snd].
  eexists. split; [reflexivity|].
  do 2 constructor; try reflexivity.
  apply Forall_app. split; [|repeat constructor].
  apply Forall_flat_map, Forall_forall. intros id _. apply root_lines_no_average.
Qed.

(** X7. A root that exists as a regular file passes the existence test
    and makes [os.listdir] raise [NotADirectoryError], which nothing
    catches.  Both versions of [analyze_directory] end with it before
    printing anything, and so does [eval.py]; [analyze_multiple_directories]
    stops at the root when the roots before it do not exist, before any
    average is printed, and [eval_mult.py] given the root first ends with
    the exception rather than with an exit status. *)
Theorem regular_file_root_raises (fs : FS) root_directory :
  is_file fs root_directory = true →
  Eval.analyze_directory fs root_directory = ([], inl (Exc NotADirectoryError)) ∧
  EvalMult.analyze_directory fs root_directory = ([], inl (Exc NotADirectoryError)) ∧
  (∀ script,
     Eval.main fs [script; root_directory] = ([], inl (Exc NotADirectoryError))) ∧
  (∀ before after,
     Forall (λ d, exists_ fs d = false) before →
     ∃ out,
       EvalMult.analyze_multiple_directories fs (before ++ root_directory :: after)
         = (out, inl (Exc NotADirectoryError)) ∧
       Forall (λ ev, is_average_line ev = false) out) ∧
  (∀ script after,
     ∃ out,
       EvalMult.main fs (script :: root_directory :: after)
         = (out, inl (Exc NotADirectoryError))).
Proof.
  intros H.
  pose proof (Eval_analyze_directory_cases fs root_directory) as He.
  assert (Eval.analyze_directory fs root_directory = ([], inl (Exc NotADirectoryError)))
    as Hef.
  { unfold is_file in H.
    destruct (fs !! root_directory) as [[p|names]|]; try discriminate. exact He. }
  split; [|split; [|split; [|split]]].
  - exact Hef.
  - now apply analyze_directory_file.
  - intros script. unfold Eval.main. now rewrite Hef.
  - intros before after. now apply analyze_multiple_directories_file.
  - intros script after. rewrite EvalMult_main_spec.
    assert (existing fs (root_directory :: after) = root_directory :: existing fs after)
      as ->.
    { assert (exists_ fs root_directory = true) as Hex.
      { unfold is_file in H. unfold exists_.
        now destruct (fs !! root_directory). }
      unfold existing. rewrite filter_cons. now rewrite decide_True by assumption. }
    destruct (analyze_multiple_directories_file fs root_directory [] (existing fs after) H)
      as (out & Hout & _); [constructor|].
    unfold EvalMult.run_valid. cbn [app] in Hout. rewrite Hout. mstep.
    cbn [fst snd]. eauto.
Qed.

Lemma regular_file_root_raises_witness :
  Eval.analyze_directory fs_runs "runs/notes.txt" = ([], inl (Exc NotADirectoryError)) ∧
  EvalMult.analyze_directory fs_runs "runs/notes.txt"
    = ([], inl (Exc NotADirectoryError)) ∧
  (∀ script,
     Eval.main fs_runs [script; "runs/notes.txt"] = ([], inl (Exc NotADirectoryError))) ∧
  (∀ before after,
     Forall (λ d, exists_ fs_runs d = false) before →
     ∃ out,
       EvalMult.analyze_multiple_directories fs_runs (before ++ "runs/notes.txt" :: after)
         = (out, inl (Exc NotADirectoryError)) ∧
       Forall (λ ev, is_average_line ev = false) out) ∧
  (∀ script after,
     ∃ out,
       EvalMult.main fs_runs (script :: "runs/notes.txt" :: after)
         = (out, inl (Exc NotADirectoryError))).
Proof.
  apply (regular_file_root_raises fs_runs "runs/notes.txt").
  vm_compute. reflexivity.
Defined.

(** ** Exit statuses *)

Lemma no_exit_ret {A} (a : A) : no_exit (mret a : M A).
Proof. intros c. discriminate. Qed.

Lemma no_exit_print ev : no_exit (print ev).
Proof. intros c. discriminate. Qed.

Lemma no_exit_raise {A} e : no_exit (raise (Exc e) : M A).
Proof. intros c. discriminate. Qed.

Lemma no_exit_bind {A B} (m : M A) (f : A → M B) :
  no_exit m → (∀ a, no_exit (f a)) → no_exit (m ≫= f).
Proof.
  intros Hm Hf c. destruct m as [out [r|a]].
  - rewrite bind_inl. intros E. apply (Hm c). unfold outcome in *. cbn [snd] in *.
    congruence.
  - rewrite bind_inr. exact (Hf a c).
Qed.

Lemma no_exit_for_each {A S} (xs : list A) (body : A → S → M S) :
  (∀ x s, no_exit (body x s)) → ∀ s, no_exit (for_each xs body s).
Proof.
  intros Hbody. induction xs as [|x xs IH]; intros s; cbn [for_each].
  - apply no_exit_ret.
  - apply no_exit_bind; [apply Hbody|exact IH].
Qed.

Lemma Eval_analyze_directory_no_exit fs root_directory :
  no_exit (Eval.analyze_directory fs root_directory).
Proof.
  intros c. pose proof (Eval_analyze_directory_cases fs root_directory) as H.
  destruct (fs !! root_directory) as [[p|names]|]; rewrite H; discriminate.
Qed.

Lemma EvalMult_analyze_directory_no_exit fs root_directory :
  no_exit (EvalMult.analyze_directory fs root_directory).
Proof.
  intros c. destruct (is_file fs root_directory) eqn:E.
  - rewrite (analyze_directory_file _ _ E). discriminate.
  - destruct (analyze_directory_returns _ _ E) as (out & r & ->). discriminate.
Qed.

Lemma analyze_multiple_directories_no_exit fs directory_list :
  no_exit (EvalMult.analyze_multiple_directories fs directory_list).
Proof.
  unfold EvalMult.analyze_multiple_directories.
  repeat (apply no_exit_bind; [apply no_exit_print|intros _]).
  apply no_exit_bind.
  { apply no_exit_for_each. intros [i d] s. unfold EvalMult.analyze_one.
    repeat (apply no_exit_bind; [apply no_exit_print|intros _]).
    apply no_exit_bind; [apply EvalMult_analyze_directory_no_exit|].
    intros [[[v|] [t|]] rs];
      repeat (apply no_exit_bind; [apply no_exit_print|intros _]);
      apply no_exit_ret. }
  intros s. repeat (apply no_exit_bind; [apply no_exit_print|intros _]).
  destruct (EvalMult.all_best_val_aurocs s) as [|v vals];
    [apply no_exit_bind; [apply no_exit_print|intros _; apply no_exit_ret]|].
  assert (∀ l, no_exit (EvalMult.mean l)) as Hmean
      by (intros [|x l]; [apply no_exit_raise|apply no_exit_ret]).
  assert (∀ l, no_exit (EvalMult.py_min l)) as Hmin
      by (intros [|x l]; [apply no_exit_raise|apply no_exit_ret]).
  assert (∀ l, no_exit (EvalMult.py_max l)) as Hmax
      by (intros [|x l]; [apply no_exit_raise|apply no_exit_ret]).
  assert (∀ l i, no_exit (EvalMult.index l i)) as Hindex.
  { intros l i. unfold EvalMult.index.
    destruct (l !! i); [apply no_exit_ret|apply no_exit_raise]. }
  apply no_exit_bind; [apply Hmean|intros avg_val].
  apply no_exit_bind; [apply Hmean|intros avg_test].
  repeat (apply no_exit_bind; [apply no_exit_print|intros _]).
  apply no_exit_bind; [apply Hmin|intros vlo].
  apply no_exit_bind; [apply Hmax|intros vhi].
  apply no_exit_bind; [apply no_exit_print|intros _].
  apply no_exit_bind; [apply Hmin|intros tlo].
  apply no_exit_bind; [apply Hmax|intros thi].
  repeat (apply no_exit_bind; [apply no_exit_print|intros _]).
  apply no_exit_bind; [|intros _; apply no_exit_ret].
  apply no_exit_for_each. intros [i d] u. unfold EvalMult.print_individual.
  destruct (i <? _); [|apply no_exit_ret].
  apply no_exit_bind; [apply Hindex|intros x].
  apply no_exit_bind; [apply Hindex|intros y]. apply no_exit_print.
Qed.

Lemma run_valid_no_exit fs d dirs : no_exit (EvalMult.run_valid fs (d :: dirs)).
Proof.
  unfold EvalMult.run_valid.
  apply no_exit_bind; [apply analyze_multiple_directories_no_exit|].
  intros [[[v|] avg_test] rs]; [|apply no_exit_ret].
  repeat (apply no_exit_bind; [apply no_exit_print|intros _]).
  destruct avg_test; [apply no_exit_print|apply no_exit_raise].
Qed.

(** X8. The scripts call [sys.exit] for a faulty invocation only, and
    with status 1: [eval.py] exactly when it does not get one argument,
    after the usage line alone; [eval_mult.py] exactly when none of its
    arguments is an existing path.  No other path through either script
    ends in [SystemExit]. *)
Theorem exit_status (fs : FS) (argv : list string) :
  (if length argv =? 2 then no_exit (Eval.main fs argv)
   else Eval.main fs argv = ([PUsage], inl (SystemExit 1))) ∧
  match existing fs (tail argv) with
  | [] => ∃ out, EvalMult.main fs argv = (out, inl (SystemExit 1))
  | _ :: _ => no_exit (EvalMult.main fs argv)
  end.
Proof.
  split.
  - destruct argv as [|a [|b [|c l]]]; try reflexivity.
    cbn [length Nat.eqb]. unfold Eval.main.
    apply no_exit_bind; [apply Eval_analyze_directory_no_exit|].
    intros _. apply no_exit_ret.
  - destruct argv as [|a [|d dirs]].
    + eexists. reflexivity.
    + eexists. reflexivity.
    + cbn [tail]. rewrite EvalMult_main_spec.
      destruct (existing fs (d :: dirs)) as [|x l] eqn:E.
      * eexists. reflexivity.
      * intros c. unfold outcome. cbn [snd]. apply run_valid_no_exit.
Qed.

(** ** What the multi-root run returns and prints *)

Lemma root_results_valid fs directory :
  root_results fs directory =
  match root_best fs directory with
  | Some _ => valid_results fs directory
  | None => []
  end.
Proof.
  unfold root_results, root_best.
  destruct (fs !! directory) as [[p|names]|] eqn:E.
  - rewrite analyze_directory_file by (unfold is_file; now rewrite E). reflexivity.
  - rewrite (EvalMult_analyze_directory_dir _ _ _ E). unfold outcome, summary.
    cbn [snd]. rewrite <- scanned_results.
    now destruct (overall_best_test_auroc _).
  - rewrite EvalMult_analyze_directory_absent by (unfold exists_; now rewrite E).
    reflexivity.
Qed.

(** X9. On roots none of which is a regular file,
    [analyze_multiple_directories] returns as its list the folder
    results of the roots that have a best, root after root in the order
    given; the results of a root without a best are left out. *)
Theorem all_results_concatenation (fs : FS) directory_list :
  Forall (λ d, is_file fs d = false) directory_list →
  ∃ out avg_val avg_test,
    EvalMult.analyze_multiple_directories fs directory_list =
    (out, inr (avg_val, avg_test,
               flat_map (λ d, match root_best fs d with
                              | Some _ => valid_results fs d
                              | None => []
                              end) directory_list)).
Proof.
  intros Hf. rewrite (analyze_multiple_directories_spec _ _ Hf).
  assert (flat_map (root_results fs) directory_list =
          flat_map (λ d, match root_best fs d with
                         | Some _ => valid_results fs d
                         | None => []
                         end) directory_list) as Hflat.
  { clear Hf. induction directory_list as [|d l IH]; [reflexivity|].
    cbn [flat_map]. now rewrite root_results_valid, IH. }
  destruct (valid_bests fs directory_list) as [|p pairs] eqn:Hp.
  - eexists _, _, _. f_equal. f_equal. f_equal.
    rewrite <- Hflat. clear Hflat. unfold valid_bests in Hp.
    induction directory_list as [|d l IH]; [reflexivity|].
    rewrite omap_cons_match in Hp. cbn [flat_map].
    inversion Hf as [|? ? Hd Hl]; subst.
    rewrite root_results_valid.
    destruct (root_best fs d); [discriminate|]. now apply IH.
  - rewrite <- Hflat. eexists _, _, _. reflexivity.
Qed.

Lemma all_results_concatenation_witness :
  ∃ out avg_val avg_test,
    EvalMult.analyze_multiple_directories fs_two_roots ["r1"; "lost"; "r2"] =
    (out, inr (avg_val, avg_test,
               flat_map (λ d, match root_best fs_two_roots d with
                              | Some _ => valid_results fs_two_roots d
                              | None => []
                              end) ["r1"; "lost"; "r2"])).
Proof.
  apply (all_results_concatenation fs_two_roots ["r1"; "lost"; "r2"]).
  repeat constructor.
Defined.

(** X10. The lines of the individual results pair the i-th directory of
    the list with the i-th accumulated best; there are as many lines
    as roots with a best.  A root is therefore shown with its own
    numbers only when every root before it has a best. *)
Theorem individual_results_pairing (fs : FS) directory_list p pairs :
  Forall (λ d, is_file fs d = false) directory_list →
  valid_bests fs directory_list = p :: pairs →
  ∃ before,
    output (EvalMult.analyze_multiple_directories fs directory_list) =
    before ++ PIndividual ::
      map (λ dp, PIndividualLine dp.1 dp.2.1 dp.2.2) (zip directory_list (p :: pairs)).
Proof.
  intros Hf Hp. rewrite (analyze_multiple_directories_spec _ _ Hf), Hp.
  unfold output, statistics_lines, individual_lines. cbn [fst].
  exists (loop_lines fs directory_list ++
          [PRule 60; POverallAllTitle; PRule 60;
           PNumProcessed (length directory_list); PNumValid (length (p :: pairs));
           PAvgVal (fmean (p :: pairs).*1); PAvgTest (fmean (p :: pairs).*2);
           PDetailed; PValMinMax (fmin (p :: pairs).*1) (fmax (p :: pairs).*1);
           PTestMinMax (fmin (p :: pairs).*2) (fmax (p :: pairs).*2)]).
  now rewrite <- app_assoc.
Qed.

Lemma individual_results_pairing_witness :
  ∃ before,
    output (EvalMult.analyze_multiple_directories fs_two_roots ["lost"; "r1"; "r2"]) =
    before ++ PIndividual ::
      [PIndividualLine "lost" (F64.dec 8 10) (F64.dec 7 10);
       PIndividualLine "r1" (F64.dec 9 10) (F64.dec 6 10)].
Proof.
  apply (individual_results_pairing fs_two_roots ["lost"; "r1"; "r2"]
           (F64.dec 8 10, F64.dec 7 10) [(F64.dec 9 10, F64.dec 6 10)]).
  - repeat constructor.
  - vm_compute. reflexivity.
Defined.

Lemma add_nan_r x : F64.add x F64.nan = F64.nan.
Proof. now destruct x as [[]|[]| |[]]. Qed.

Lemma fold_add_from_nan l : fold_left F64.add l F64.nan = F64.nan.
Proof. induction l as [|x l IH]; [reflexivity|exact IH]. Qed.

(** A NaN among the summands makes the sum NaN. *)
Lemma fold_add_nan l : ∀ acc,
  Exists (λ x, F64.is_nan x = true) l → fold_left F64.add l acc = F64.nan.
Proof.
  induction l as [|x l IH]; intros acc Hex; [inversion Hex|].
  cbn [fold_left]. inversion Hex as [? ? Hx|? ? Hl]; subst.
  - apply is_nan_eq in Hx. subst x. rewrite add_nan_r. apply fold_add_from_nan.
  - now apply IH.
Qed.

(** X11. A NaN [test_auroc] is a value like any other to the scripts: a
    root whose best row has none still counts as a root with a valid
    result, and then the average [test_auroc] printed and returned is
    NaN. *)
Theorem nan_test_makes_average_nan (fs : FS) directory_list :
  Forall (λ d, is_file fs d = false) directory_list →
  Exists (λ p, F64.is_nan p.2 = true) (valid_bests fs directory_list) →
  ∃ before after avg_val rs,
    EvalMult.analyze_multiple_directories fs directory_list =
    (before ++ PAvgTest F64.nan :: after, inr (Some avg_val, Some F64.nan, rs)).
Proof.
  intros Hf Hex. rewrite (analyze_multiple_directories_spec _ _ Hf).
  destruct (valid_bests fs directory_list) as [|p pairs]; [inversion Hex|].
  assert (fmean (p :: pairs).*2 = F64.nan) as Hnan.
  { unfold fmean, EvalMult.py_sum. rewrite fold_add_nan; [reflexivity|].
    apply Exists_fmap. exact Hex. }
  cbn zeta. unfold statistics_lines. rewrite !Hnan.
  exists (loop_lines fs directory_list ++
          [PRule 60; POverallAllTitle; PRule 60;
           PNumProcessed (length directory_list); PNumValid (length (p :: pairs));
           PAvgVal (fmean (p :: pairs).*1)]).
  eexists _, _, _. now rewrite <- app_assoc.
Qed.

Lemma nan_test_makes_average_nan_witness :
  ∃ before after avg_val rs,
    EvalMult.analyze_multiple_directories fs_nan_test ["r1"; "r2"] =
    (before ++ PAvgTest F64.nan :: after, inr (Some avg_val, Some F64.nan, rs)).
Proof.
  apply (nan_test_makes_average_nan fs_nan_test ["r1"; "r2"]).
  - repeat constructor.
  - apply Exists_cons_hd. vm_compute. reflexivity.
Defined.

(** X12. [main] of [eval_mult.py] on at least one argument, the existing
    ones not being regular files: when some existing root has a best it
    returns after the three closing lines, which carry the averages of
    the bests of the existing roots; when the existing roots have no
    best it returns after the line saying so; when no argument exists it
    exits with status 1 after the error line. *)
Theorem EvalMult_main_reports (fs : FS) script d dirs :
  Forall (λ r, is_file fs r = false) (existing fs (d :: dirs)) →
  match valid_bests fs (existing fs (d :: dirs)) with
  | p :: pairs =>
      ∃ out, EvalMult.main fs (script :: d :: dirs) =
        (out ++ [PFinalTitle; PFinalVal (fmean (p :: pairs).*1);
                 PFinalTest (fmean (p :: pairs).*2)], inr tt)
  | [] =>
      match existing fs (d :: dirs) with
      | [] => EvalMult.main fs (script :: d :: dirs) =
                (skip_warnings fs (d :: dirs) ++ [PErrNoValidDirs], inl (SystemExit 1))
      | _ :: _ => ∃ out, EvalMult.main fs (script :: d :: dirs) =
                    (out ++ [PNoValidAny], inr tt)
      end
  end.
Proof.
  intros Hf. rewrite EvalMult_main_spec.
  destruct (existing fs (d :: dirs)) as [|x roots] eqn:E.
  - reflexivity.
  - unfold EvalMult.run_valid.
    rewrite (analyze_multiple_directories_spec _ _ Hf).
    destruct (valid_bests fs (x :: roots)) as [|p pairs].
    + rewrite bind_inr. cbn [fst snd].
      exists (skip_warnings fs (d :: dirs) ++ loop_lines fs (x :: roots) ++
              [PRule 60; POverallAllTitle; PRule 60]).
      rewrite app_nil_r, <- !app_assoc. reflexivity.
    + rewrite bind_inr. cbn [fst snd]. mstep. cbn [fst snd].
      exists (skip_warnings fs (d :: dirs) ++ loop_lines fs (x :: roots) ++
              statistics_lines (x :: roots) (p :: pairs)).
      rewrite <- !app_assoc. reflexivity.
Qed.

Lemma EvalMult_main_reports_witness :
  ∃ out, EvalMult.main fs_two_roots ["eval_mult.py"; "r1"; "lost"; "r2"] =
    (out ++ [PFinalTitle; PFinalVal (fmean [F64.dec 8 10; F64.dec 9 10]);
             PFinalTest (fmean [F64.dec 7 10; F64.dec 6 10])], inr tt).
Proof.
  pose proof (EvalMult_main_reports fs_two_roots "eval_mult.py" "r1" ["lost"; "r2"]) as H.
  assert (existing fs_two_roots ["r1"; "lost"; "r2"] = ["r1"; "r2"]) as E
      by (vm_compute; reflexivity).
  rewrite E in H.
  assert (valid_bests fs_two_roots ["r1"; "r2"]
          = [(F64.dec 8 10, F64.dec 7 10); (F64.dec 9 10, F64.dec 6 10)]) as Hp
      by (vm_compute; reflexivity).
  rewrite Hp in H. apply H. repeat constructor.
Defined.

(** ** The marker test and the fate of each folder *)

Lemma lower_char_sep c : Ascii.eqb (Path.lower_char c) Path.sep = Ascii.eqb c Path.sep.
Proof. destruct c as [[] [] [] [] [] [] [] []]; reflexivity. Qed.

Lemma lower_char_idem c : Path.lower_char (Path.lower_char c) = Path.lower_char c.
Proof. destruct c as [[] [] [] [] [] [] [] []]; reflexivity. Qed.

Lemma has_sep_lower p : Path.has_sep (Path.lower p) = Path.has_sep p.
Proof.
  induction p as [|c p IH]; [reflexivity|].
  cbn [Path.lower Path.has_sep]. now rewrite lower_char_sep, IH.
Qed.

Lemma basename_lower p : Path.basename (Path.lower p) = Path.lower (Path.basename p).
Proof.
  induction p as [|c p IH]; [reflexivity|].
  cbn [Path.lower Path.basename]. rewrite has_sep_lower, lower_char_sep.
  destruct (Path.has_sep p); [exact IH|].
  now destruct (Ascii.eqb c Path.sep).
Qed.

Lemma lower_idem p : Path.lower (Path.lower p) = Path.lower p.
Proof.
  induction p as [|c p IH]; [reflexivity|].
  cbn [Path.lower]. now rewrite lower_char_idem, IH.
Qed.

(** X13. The marker test does not see the case of ASCII letters: two
    paths that differ by case only are both taken for side files or
    both not, and a path is treated as its lower-case form is. *)
Theorem marker_case_insensitive (p q : string) :
  Path.lower p = Path.lower q →
  is_info p = is_info q ∧ is_info (Path.lower p) = is_info p.
Proof.
  intros H. unfold is_info.
  rewrite <- !basename_lower, lower_idem, H. auto.
Qed.

Lemma marker_case_insensitive_witness :
  is_info "runs/C/INFO.csv" = is_info "runs/c/Info.CSV" ∧
  is_info (Path.lower "runs/C/INFO.csv") = is_info "runs/C/INFO.csv".
Proof.
  apply (marker_case_insensitive "runs/C/INFO.csv" "runs/c/Info.CSV").
  vm_compute. reflexivity.
Defined.

(** One round of the loop on a directory, on the tables of the
    embedding: a result with its lines, or one warning. *)
Lemma scan_folder_cases sc (fs : FS) root_directory folder_name s :
  isdir fs (Path.join root_directory folder_name) = true →
  (∃ r, folder_result fs root_directory folder_name = Some r ∧
        scan_folder sc fs root_directory folder_name s
          = (folder_lines sc r, inr (track s r))) ∨
  (∃ w, is_warning w = true ∧
        folder_result fs root_directory folder_name = None ∧
        scan_folder sc fs root_directory folder_name s = ([w], inr s)).
Proof.
  intros Hdir. rewrite scan_folder_spec.
  unfold folder_output, folder_result. rewrite Hdir.
  destruct (first_without_info _) as [csv|];
    [|right; eexists; (split; [|split]); [| |reflexivity]; reflexivity].
  destruct (process_csv_file_cases fs csv) as (out & r & Hrun & Hcase).
  rewrite Hrun. unfold output, outcome. cbn [fst snd].
  destruct (fs !! csv) as [[[e|df]|names]|];
    [|destruct (_ && _); [destruct (forallb _ _)|]|..];
    try (destruct Hcase as [-> ->]; right; eexists; (split; [|split]);
         [| |reflexivity]; reflexivity).
  destruct Hcase as (-> & v & t & ->). left. eexists. split; reflexivity.
Qed.

(** X14. No directory is passed over in silence: a round of the loop on
    an entry that is a directory, when it comes to its end, has either
    recorded the result of the folder, printing the lines of the result
    and nothing else, or printed exactly one warning and left the loop
    variables as they are. *)
Theorem folder_result_or_warning sc (fs : FS) root_directory folder_name s out s' :
  isdir fs (Path.join root_directory folder_name) = true →
  scan_folder sc fs root_directory folder_name s = (out, inr s') →
  (∃ r, folder_result fs root_directory folder_name = Some r ∧
        out = folder_lines sc r ∧ s' = track s r) ∨
  (∃ w, is_warning w = true ∧
        folder_result fs root_directory folder_name = None ∧
        out = [w] ∧ s' = s).
Proof.
  intros Hdir Hrun.
  destruct (scan_folder_cases sc fs root_directory folder_name s Hdir)
    as [(r & Hr & Hs)|(w & Hw & Hr & Hs)];
    rewrite Hs in Hrun; injection Hrun as <- <-; [left|right]; eauto.
Qed.

Lemma folder_result_or_warning_witness :
  (∃ r, folder_result fs_runs "runs" "E" = Some r ∧
        [PErrProcessing "runs/E/metrics.csv" ParserError] = folder_lines Multi r ∧
        scan_init = track scan_init r) ∨
  (∃ w, is_warning w = true ∧
        folder_result fs_runs "runs" "E" = None ∧
        [PErrProcessing "runs/E/metrics.csv" ParserError] = [w] ∧
        scan_init = scan_init).
Proof.
  apply (folder_result_or_warning Multi fs_runs "runs" "E" scan_init).
  - vm_compute. reflexivity.
  - vm_compute. reflexivity.
Defined.
